(** * Smart-PDF-Chatbot: the PDF table dashboard (src/utils/pdfDashboard.js)

    A shallow embedding of [extractTable], [generateHTML], [saveHTMLToFile]
    and [pdfTableToHTMLDashboard], together with the parts of the JavaScript
    runtime they call: [String.prototype.trim], [String.prototype.split],
    matching against the regular expression [/\t|\s{2,}/], [isNaN], [Number]
    and the conversion of a number to a string inside a template literal.

    A JavaScript string is a sequence of UTF-16 code units; it is modelled
    as a list of code units, each an [N]. *)

From Stdlib Require Import String Ascii DecimalString.
From Stdlib Require Import NArith ZArith Bool Lia List.
Import ListNotations.

Set Implicit Arguments.

(** ** JavaScript strings *)

Module JSString.

Definition code_unit := N.
Definition jsstring := list code_unit.

(** [u] embeds an ASCII literal written in this file as a JavaScript
    string, one code unit per character. *)
Fixpoint u (s : string) : jsstring :=
  match s with
  | EmptyString => []
  | String c r => N_of_ascii c :: u r
  end.

Definition TAB : code_unit := 9%N.
Definition NL : code_unit := 10%N.

Definition jsstring_eqb (a b : jsstring) : bool :=
  if list_eq_dec N.eq_dec a b then true else false.

(** WhiteSpace and LineTerminator of ECMA-262: the characters that
    [trim] strips and that [\s] matches. *)
Definition is_ws (c : code_unit) : bool :=
  ((c =? 9) || (c =? 10) || (c =? 11) || (c =? 12) || (c =? 13) || (c =? 32)
   || (c =? 160) || (c =? 5760)
   || ((8192 <=? c) && (c <=? 8202))
   || (c =? 8232) || (c =? 8233) || (c =? 8239) || (c =? 8287)
   || (c =? 12288) || (c =? 65279))%N.

Fixpoint dropws (s : jsstring) : jsstring :=
  match s with
  | [] => []
  | c :: s' => if is_ws c then dropws s' else s
  end.

(** [s.trim()] *)
Definition trim (s : jsstring) : jsstring :=
  rev (dropws (rev (dropws s))).

(** [s.split('\n')]: [cur] holds the line being read, reversed. *)
Fixpoint split_nl_from (cur : jsstring) (s : jsstring) : list jsstring :=
  match s with
  | [] => [rev cur]
  | c :: s' =>
      if (c =? NL)%N then rev cur :: split_nl_from [] s'
      else split_nl_from (c :: cur) s'
  end.

Definition split_nl (s : jsstring) : list jsstring := split_nl_from [] s.

(** [parts.join('')] *)
Definition join_empty (parts : list jsstring) : jsstring := concat parts.

(** Whether [s] starts, or ends, with white space. *)
Definition leading_ws (s : jsstring) : bool :=
  match s with
  | [] => false
  | c :: _ => is_ws c
  end.

Definition trailing_ws (s : jsstring) : bool := leading_ws (rev s).

(** Whether [s] holds two white-space characters in a row. *)
Fixpoint has_ws_run (s : jsstring) : bool :=
  match s with
  | [] => false
  | c1 :: r =>
      match r with
      | [] => false
      | c2 :: _ => (is_ws c1 && is_ws c2) || has_ws_run r
      end
  end.

Definition has_tab (s : jsstring) : bool := existsb (N.eqb TAB) s.

Fixpoint starts_with (p s : jsstring) : bool :=
  match p, s with
  | [], _ => true
  | a :: p', b :: s' => (a =? b)%N && starts_with p' s'
  | _ :: _, [] => false
  end.

(** Whether [needle] occurs in [hay] as a run of consecutive code units. *)
Fixpoint occurs (needle hay : jsstring) : bool :=
  starts_with needle hay ||
  match hay with
  | [] => false
  | _ :: hay' => occurs needle hay'
  end.

End JSString.

Import JSString.

(** ** The separator [/\t|\s{2,}/] *)

Module Separator.

(** Length of the longest prefix of white space. *)
Fixpoint ws_run (s : jsstring) : nat :=
  match s with
  | [] => 0
  | c :: s' => if is_ws c then S (ws_run s') else 0
  end.

(** [match_at s] is the length of the match of [/\t|\s{2,}/] anchored at
    the start of [s], if there is one.  The alternatives are tried in
    order: a tab matches by itself (one code unit) even when more white
    space follows; otherwise [\s{2,}] is greedy and takes the whole run,
    which has to count two code units or more. *)
Definition match_at (s : jsstring) : option nat :=
  match s with
  | [] => None
  | c :: _ =>
      if (c =? TAB)%N then Some 1
      else if 2 <=? ws_run s then Some (ws_run s) else None
  end.

(** [line.match(/\t|\s{2,}/)], read as a truth value: the expression
    matches at some position of [s]. *)
Fixpoint test (s : jsstring) : bool :=
  match s with
  | [] => false
  | _ :: s' =>
      match match_at s with
      | Some _ => true
      | None => test s'
      end
  end.

(** [s.split(/\t|\s{2,}/)].  The scan of ECMA-262 moves through [s] one
    position at a time; at a position where the separator matches, the
    text read so far is emitted and the scan resumes after the match.
    [skip] counts the code units of the current match still to pass over
    and [tok] holds the token being read, reversed.  The separator never
    matches the empty string, so no match is discarded, and on the empty
    string the result is the one empty token. *)
Fixpoint split_from (skip : nat) (tok : jsstring) (s : jsstring)
  : list jsstring :=
  match s with
  | [] => [rev tok]
  | c :: s' =>
      match skip with
      | S k => split_from k tok s'
      | O =>
          match match_at s with
          | Some (S n) => rev tok :: split_from n [] s'
          | _ => split_from 0 (c :: tok) s'
          end
      end
  end.

Definition split (s : jsstring) : list jsstring := split_from 0 [] s.

End Separator.

(** ** JavaScript numbers *)

Module JSNumber.

(** A Number value.  [Finite neg m e] stands for [m * 10 ^ e], negated
    when [neg]; [StringToNumber] keeps [m] free of trailing zeros, and zero
    is [Finite neg 0 0].  This is the mathematical value of the literal
    that was read: every value the conversion below produces is a decimal
    fraction.  What binary64 does to that value is not modelled: the
    rounding to the nearest float (which leaves 42, 30 and 4.5 as they
    are, and changes 9007199254740993), the overflow to [Infinity] (as
    for [1e400]) and the underflow to zero (as for [1e-324]).  Whether
    a text is a number, that is whether the result is [NaN], does not
    depend on it. *)
Inductive Number : Type :=
  | NaN
  | Infinity (neg : bool)
  | Finite (neg : bool) (m : N) (e : Z).

Definition isNaN (x : Number) : bool :=
  match x with
  | NaN => true
  | _ => false
  end.

(** Value of a digit in the given base; letters count from ten, in either
    case. *)
Definition digit_val (base : N) (c : code_unit) : option N :=
  let v :=
    if ((48 <=? c) && (c <=? 57))%N then Some (c - 48)%N
    else if ((97 <=? c) && (c <=? 122))%N then Some (c - 87)%N
    else if ((65 <=? c) && (c <=? 90))%N then Some (c - 55)%N
    else None in
  match v with
  | Some d => if (d <? base)%N then Some d else None
  | None => None
  end.

(** The longest prefix of digits, as digit values, and what follows it. *)
Fixpoint span_digits (base : N) (s : jsstring) : list N * jsstring :=
  match s with
  | [] => ([], [])
  | c :: s' =>
      match digit_val base c with
      | Some d => let (ds, r) := span_digits base s' in (d :: ds, r)
      | None => ([], s)
      end
  end.

Definition digits_value (base : N) (ds : list N) : N :=
  fold_left (fun acc d => (acc * base + d)%N) ds 0%N.

(** Removes up to [fuel] trailing zeros from the decimal writing of [m]. *)
Fixpoint strip_zeros (fuel : nat) (m : N) (e : Z) : N * Z :=
  match fuel with
  | O => (m, e)
  | S k =>
      if (m =? 0)%N then (0%N, 0%Z)
      else if (m mod 10 =? 0)%N then strip_zeros k (m / 10)%N (e + 1)%Z
      else (m, e)
  end.

Definition decimal (neg : bool) (ds : list N) (e : Z) : Number :=
  let (m, e') := strip_zeros (S (length ds)) (digits_value 10 ds) e in
  Finite neg m e'.

Definition of_Z (z : Z) : Number :=
  let m := Z.abs_N z in
  let (m', e) := strip_zeros (S (N.to_nat (N.log2 m))) m 0 in
  Finite (z <? 0)%Z m' e.

(** An optional sign: whether it is a minus, and what follows it. *)
Definition sign (s : jsstring) : bool * jsstring :=
  match s with
  | [] => (false, [])
  | c :: r =>
      if (c =? 43)%N then (false, r)
      else if (c =? 45)%N then (true, r)
      else (false, s)
  end.

(** ExponentPart, optional, up to the end of the text.  [ds] are the
    digits read before it and [fl] counts those after the point. *)
Definition with_exponent (neg : bool) (ds : list N) (fl : nat)
    (r : jsstring) : Number :=
  match r with
  | [] => decimal neg ds (- Z.of_nat fl)
  | c :: r' =>
      if ((c =? 101) || (c =? 69))%N then
        let (eneg, r2) := sign r' in
        match span_digits 10 r2 with
        | ((_ :: _) as eds, []) =>
            let x := Z.of_N (digits_value 10 eds) in
            decimal neg ds ((if eneg then - x else x) - Z.of_nat fl)
        | _ => NaN
        end
      else NaN
  end.

(** StrUnsignedDecimalLiteral *)
Definition unsigned_decimal (neg : bool) (s : jsstring) : Number :=
  if jsstring_eqb s (u "Infinity") then Infinity neg
  else
    let (ip, r1) := span_digits 10 s in
    if starts_with (u ".") r1 then
      let (fp, r3) := span_digits 10 (tl r1) in
      match ip ++ fp with
      | [] => NaN
      | ds => with_exponent neg ds (length fp) r3
      end
    else
      match ip with
      | [] => NaN
      | _ => with_exponent neg ip 0 r1
      end.

(** NonDecimalIntegerLiteral: [0x], [0o] or [0b], in either case, then
    digits of that base to the end of the text. *)
Definition radix_of (p : code_unit) : option N :=
  if ((p =? 120) || (p =? 88))%N then Some 16%N
  else if ((p =? 111) || (p =? 79))%N then Some 8%N
  else if ((p =? 98) || (p =? 66))%N then Some 2%N
  else None.

Definition integer (m : N) : Number :=
  let (m', e) := strip_zeros (S (N.to_nat (N.log2 m))) m 0 in
  Finite false m' e.

Definition non_decimal (s : jsstring) : option Number :=
  match s with
  | z :: p :: r =>
      if (z =? 48)%N then
        match radix_of p with
        | Some b =>
            match span_digits b r with
            | ((_ :: _) as ds, []) => Some (integer (digits_value b ds))
            | _ => Some NaN
            end
        | None => None
        end
      else None
  | _ => None
  end.

(** StringToNumber of ECMA-262, which [isNaN(s)] and [Number(s)] apply to
    a string argument: white space around the text is dropped, the empty
    text is zero, and any text outside the grammar StrNumericLiteral is
    [NaN]. *)
Definition StringToNumber (s : jsstring) : Number :=
  match trim s with
  | [] => Finite false 0 0
  | t =>
      match non_decimal t with
      | Some x => x
      | None => let (neg, r) := sign t in unsigned_decimal neg r
      end
  end.

Definition digits_of_N (n : N) : jsstring :=
  u (NilEmpty.string_of_uint (N.to_uint n)).

(** Number::toString of ECMA-262 in radix ten, which a template literal
    applies to a number.  With [k] digits in [m] and [n = k + e], the
    value is written plainly when [-6 < n <= 21] and with an exponent
    otherwise. *)
Definition NumberToString (x : Number) : jsstring :=
  match x with
  | NaN => u "NaN"
  | Infinity neg => (if neg then u "-" else []) ++ u "Infinity"
  | Finite neg m0 e0 =>
      let (m, e) := strip_zeros (S (N.to_nat (N.log2 m0))) m0 e0 in
      if (m =? 0)%N then u "0"
      else
        let ds := digits_of_N m in
        let k := Z.of_nat (length ds) in
        let n := (k + e)%Z in
        (if neg then u "-" else []) ++
        (if ((k <=? n) && (n <=? 21))%Z then
           ds ++ repeat 48%N (Z.to_nat (n - k))
         else if ((0 <? n) && (n <=? 21))%Z then
           firstn (Z.to_nat n) ds ++ u "." ++ skipn (Z.to_nat n) ds
         else if ((-6 <? n) && (n <=? 0))%Z then
           u "0." ++ repeat 48%N (Z.to_nat (- n)) ++ ds
         else
           let ex :=
             u "e" ++ (if (n - 1 <? 0)%Z then u "-" else u "+")
               ++ digits_of_N (Z.abs_N (n - 1)) in
           match ds with
           | [d] => [d] ++ ex
           | d :: rest => [d] ++ u "." ++ rest ++ ex
           | [] => ex
           end)
  end.

End JSNumber.

Import JSNumber.

(** ** The table and its extraction *)

Module Dashboard.

(** A cell of [values]: [Number(trimmed)] or the string [trimmed]. *)
Inductive Cell : Type :=
  | CNum (x : Number)
  | CStr (s : jsstring).

(** The object [{ headers, values }]. *)
Record Table : Type := mkTable {
  headers : list jsstring;
  values : list (list Cell)
}.

(** [new Error(message)] and the errors of the collaborators. *)
Record JSError : Type := Error { message : jsstring }.

Inductive result (A : Type) : Type :=
  | Ok (a : A)
  | Throw (e : JSError).

Arguments Ok {A} a.
Arguments Throw {A} e.

(** The error the spec calls NoTabularDataError. *)
Definition NoTabularDataError : JSError :=
  Error (u "No table-like data found").

(** [line => line.trim().length > 0 && line.match(/\t|\s{2,}/)] *)
Definition is_candidate (line : jsstring) : bool :=
  (0 <? length (trim line)) && Separator.test line.

(** [line => line.trim().split(/\t|\s{2,}/)] *)
Definition tokenize (line : jsstring) : list jsstring :=
  Separator.split (trim line).

(** The conversion of one cell of a data row:
    [!isNaN(trimmed) && trimmed !== '' ? Number(trimmed) : trimmed]. *)
Definition coerce (value : jsstring) : Cell :=
  let trimmed := trim value in
  if negb (isNaN (StringToNumber trimmed)) && negb (jsstring_eqb trimmed [])
  then CNum (StringToNumber trimmed)
  else CStr trimmed.

(** [data.text.split('\n').filter(...)] *)
Definition candidate_lines (text : jsstring) : list jsstring :=
  filter is_candidate (split_nl text).

(** [rows.slice(1).filter(row => row.length === headers.length)]: the
    tokenized data lines that are kept. *)
Definition kept_rows (hs : list jsstring) (rows : list (list jsstring))
  : list (list jsstring) :=
  filter (fun row => length row =? length hs) (tl rows).

(** Lines 10 to 25 of [extractTable]: what it does with [data.text]. *)
Definition extractTable_text (text : jsstring) : result Table :=
  let lines := candidate_lines text in
  if length lines <? 2 then Throw NoTabularDataError
  else
    let rows := map tokenize lines in
    let hs := hd [] rows in
    Ok (mkTable hs (map (map coerce) (kept_rows hs rows))).

(** ** Rendering *)

(** A value placed in a template literal. *)
Definition cell_text (c : Cell) : jsstring :=
  match c with
  | CNum x => NumberToString x
  | CStr s => s
  end.

Definition td (c : Cell) : jsstring := u "<td>" ++ cell_text c ++ u "</td>".
Definition th (h : jsstring) : jsstring := u "<th>" ++ h ++ u "</th>".
Definition tr (cells : list jsstring) : jsstring :=
  u "<tr>" ++ join_empty cells ++ u "</tr>".

(** U+1F4CA, a surrogate pair. *)
Definition chart_emoji : jsstring := [55357%N; 56522%N].

Definition html_head : jsstring :=
  [NL]
  ++ u "    <html>"
  ++ [NL]
  ++ u "      <head>"
  ++ [NL]
  ++ u "        <title>Dashboard</title>"
  ++ [NL]
  ++ u "        <style>"
  ++ [NL]
  ++ u "          table { border-collapse: collapse; width: 100%; font-family: Arial, sans-serif; }"
  ++ [NL]
  ++ u "          th, td { border: 1px solid #ccc; padding: 8px; text-align: center; }"
  ++ [NL]
  ++ u "          th { background-color: #eee; }"
  ++ [NL]
  ++ u "        </style>"
  ++ [NL]
  ++ u "      </head>"
  ++ [NL]
  ++ u "      <body>"
  ++ [NL]
  ++ u "        <h1>"
  ++ chart_emoji
  ++ u " PDF Table Dashboard</h1>"
  ++ [NL]
  ++ u "        <table>".

Definition html_tail : jsstring :=
  u "</table>"
  ++ [NL]
  ++ u "      </body>"
  ++ [NL]
  ++ u "    </html>"
  ++ [NL]
  ++ u "  ".

Definition generateHTML (hs : list jsstring) (vs : list (list Cell))
  : jsstring :=
  let tableRows := join_empty (map (fun row => tr (map td row)) vs) in
  let tableHeader := tr (map th hs) in
  html_head ++ tableHeader ++ tableRows ++ html_tail.

End Dashboard.

Import Dashboard.

(** ** The pipeline and its collaborators *)

Module Pipeline.

(** The contents of a file. *)
Definition Buffer := list N.

(** What the code asks of [fs.promises], over a state [World] of the
    storage.  Reading returns no new state; creating a directory and
    writing a file return one, also when they fail. *)
Class Storage (World : Type) : Type := {
  readFile : jsstring -> World -> result Buffer;
  mkdir_recursive : jsstring -> World -> result unit * World;
  writeFile : jsstring -> jsstring -> World -> result unit * World
}.

(** An [async] function body: it runs from a state of the storage to a
    value or a thrown error, and a state. *)
Definition Async (World A : Type) : Type := World -> result A * World.

Definition ret {World A : Type} (a : A) : Async World A :=
  fun w => (Ok a, w).

Definition bind {World A B : Type} (m : Async World A)
    (k : A -> Async World B) : Async World B :=
  fun w =>
    match m w with
    | (Ok a, w') => k a w'
    | (Throw e, w') => (Throw e, w')
    end.

Definition lift {World A : Type} (r : result A) : Async World A :=
  fun w => (r, w).

Declare Scope async_scope.
Delimit Scope async_scope with async.
Notation "'await' x <- m ;; k" := (bind m (fun x => k))
  (at level 100, x pattern, m at next level, right associativity)
  : async_scope.
Local Open Scope async_scope.

Section WithCollaborators.

Context {World : Type} `{Storage World}.

(** [pdf-parse]: the text of a document, or an error. *)
Variable pdfParse : Buffer -> result jsstring.

(** [path.join], [path.basename] and [__dirname] of Node. *)
Variable path_join : jsstring -> jsstring -> jsstring.
Variable path_basename : jsstring -> jsstring -> jsstring.
Variable dirname : jsstring.

(** Lines 6 and 7 of [extractTable]: the text handed to the rest. *)
Definition read_text (filePath : jsstring) : Async World jsstring :=
  await buffer <- (fun w => (readFile filePath w, w)) ;;
  lift (pdfParse buffer).

Definition extractTable (filePath : jsstring) : Async World Table :=
  await text <- read_text filePath ;;
  lift (extractTable_text text).

Definition saveHTMLToFile (htmlContent filename : jsstring)
  : Async World jsstring :=
  let dashboardDir := path_join dirname (u "../dashboards") in
  await _ <- mkdir_recursive dashboardDir ;;
  let outputPath := path_join dashboardDir (filename ++ u ".html") in
  await _ <- writeFile outputPath htmlContent ;;
  ret outputPath.

Definition pdfTableToHTMLDashboard (filePath : jsstring)
  : Async World jsstring :=
  await t <- extractTable filePath ;;
  let html := generateHTML (headers t) (values t) in
  await htmlFile <- saveHTMLToFile html (path_basename filePath (u ".pdf")) ;;
  ret htmlFile.

End WithCollaborators.

(** *** A storage held in memory, to run the pipeline on examples *)

Record MemFS : Type := mkMemFS {
  files : list (jsstring * Buffer);
  dirs : list jsstring
}.

Fixpoint lookup (p : jsstring) (fs : list (jsstring * Buffer))
  : option Buffer :=
  match fs with
  | [] => None
  | (q, b) :: fs' => if jsstring_eqb p q then Some b else lookup p fs'
  end.

Definition mem_readFile (p : jsstring) (w : MemFS) : result Buffer :=
  match lookup p (files w) with
  | Some b => Ok b
  | None => Throw (Error (u "ENOENT"))
  end.

Definition mem_mkdir (p : jsstring) (w : MemFS) : result unit * MemFS :=
  match lookup p (files w) with
  | Some _ => (Throw (Error (u "EEXIST")), w)
  | None =>
      if existsb (jsstring_eqb p) (dirs w) then (Ok tt, w)
      else (Ok tt, mkMemFS (files w) (p :: dirs w))
  end.

Definition mem_writeFile (p content : jsstring) (w : MemFS)
  : result unit * MemFS :=
  if existsb (jsstring_eqb p) (dirs w) then (Throw (Error (u "EISDIR")), w)
  else
    (Ok tt,
     mkMemFS
       ((p, content) ::
        filter (fun f => negb (jsstring_eqb p (fst f))) (files w))
       (dirs w)).

#[export] Instance mem_storage : Storage MemFS := {
  readFile := mem_readFile;
  mkdir_recursive := mem_mkdir;
  writeFile := mem_writeFile
}.

(** A document whose text layer is its bytes, and paths joined with a
    slash: stand-ins for [pdf-parse] and [path] on the examples. *)
Definition plain_pdfParse (b : Buffer) : result jsstring := Ok b.

Definition slash_join (a b : jsstring) : jsstring := a ++ u "/" ++ b.

Definition keep_basename (p ext : jsstring) : jsstring := p.

End Pipeline.

Import Pipeline.

(** ** The spec's wording, for comparison with the code *)

Module Spec.

(** The candidate test as the spec words it: not blank once trimmed, and
    holding a tab or a run of two or more white-space characters. *)
Definition tabular_shape_spec (line : jsstring) : bool :=
  negb (jsstring_eqb (trim line) []) && (has_tab line || has_ws_run line).

(** The escaping the spec asks of the renderer: ampersands and angle
    brackets become character references. *)
Fixpoint escape_markup_spec (s : jsstring) : jsstring :=
  match s with
  | [] => []
  | c :: r =>
      (if (c =? 38)%N then u "&amp;"
       else if (c =? 60)%N then u "&lt;"
       else if (c =? 62)%N then u "&gt;"
       else [c]) ++ escape_markup_spec r
  end.

(** A numeric literal as the spec words it: an integer or a decimal,
    optionally signed. *)
Definition is_decimal_digit (c : code_unit) : bool :=
  ((48 <=? c) && (c <=? 57))%N.

Definition leading_digit (s : jsstring) : bool :=
  match s with
  | [] => false
  | c :: _ => is_decimal_digit c
  end.

Fixpoint skip_digits (s : jsstring) : jsstring :=
  match s with
  | [] => []
  | c :: r => if is_decimal_digit c then skip_digits r else s
  end.

Definition signed_decimal_spec (s : jsstring) : bool :=
  let body :=
    match s with
    | 43%N :: r => r
    | 45%N :: r => r
    | _ => s
    end in
  leading_digit body &&
  match skip_digits body with
  | [] => true
  | c :: frac =>
      (c =? 46)%N && leading_digit frac &&
      match skip_digits frac with [] => true | _ => false end
  end.

End Spec.

Import Spec.

(** ** The grammar StrNumericLiteral of ECMA-262 *)

Module Grammar.

Definition DecimalDigit (c : code_unit) : Prop := (48 <= c <= 57)%N.

Definition HexDigit (c : code_unit) : Prop :=
  (48 <= c <= 57)%N \/ (97 <= c <= 102)%N \/ (65 <= c <= 70)%N.

Definition OctalDigit (c : code_unit) : Prop := (48 <= c <= 55)%N.

Definition BinaryDigit (c : code_unit) : Prop := c = 48%N \/ c = 49%N.

(** One digit or more. *)
Definition Digits (D : code_unit -> Prop) (s : jsstring) : Prop :=
  s <> [] /\ Forall D s.

Definition opt (P : jsstring -> Prop) (s : jsstring) : Prop :=
  s = [] \/ P s.

Definition Sign (s : jsstring) : Prop := s = u "+" \/ s = u "-".

Inductive ExponentPart : jsstring -> Prop :=
  | ExponentPart_intro (ind : code_unit) (sg ds : jsstring) :
      ind = 101%N \/ ind = 69%N ->
      opt Sign sg ->
      Digits DecimalDigit ds ->
      ExponentPart (ind :: sg ++ ds).

Inductive StrUnsignedDecimalLiteral : jsstring -> Prop :=
  | SUDL_infinity : StrUnsignedDecimalLiteral (u "Infinity")
  | SUDL_point (ip fp ex : jsstring) :
      Digits DecimalDigit ip ->
      opt (Digits DecimalDigit) fp ->
      opt ExponentPart ex ->
      StrUnsignedDecimalLiteral (ip ++ u "." ++ fp ++ ex)
  | SUDL_fraction (fp ex : jsstring) :
      Digits DecimalDigit fp ->
      opt ExponentPart ex ->
      StrUnsignedDecimalLiteral (u "." ++ fp ++ ex)
  | SUDL_integer (ip ex : jsstring) :
      Digits DecimalDigit ip ->
      opt ExponentPart ex ->
      StrUnsignedDecimalLiteral (ip ++ ex).

Inductive StrNumericLiteral : jsstring -> Prop :=
  | SNL_decimal (sg body : jsstring) :
      opt Sign sg ->
      StrUnsignedDecimalLiteral body ->
      StrNumericLiteral (sg ++ body)
  | SNL_hex (x : code_unit) (ds : jsstring) :
      x = 120%N \/ x = 88%N ->
      Digits HexDigit ds ->
      StrNumericLiteral (48%N :: x :: ds)
  | SNL_octal (o : code_unit) (ds : jsstring) :
      o = 111%N \/ o = 79%N ->
      Digits OctalDigit ds ->
      StrNumericLiteral (48%N :: o :: ds)
  | SNL_binary (b : code_unit) (ds : jsstring) :
      b = 98%N \/ b = 66%N ->
      Digits BinaryDigit ds ->
      StrNumericLiteral (48%N :: b :: ds).

(** For the reading of digits by the code: a character that counts as
    a digit in a base, and what follows a run of digits, which is the
    end or a character that is not a digit. *)
Definition is_digit (base : N) (c : code_unit) : Prop :=
  digit_val base c <> None.

Definition stops (base : N) (r : jsstring) : Prop :=
  match r with
  | [] => True
  | c :: _ => digit_val base c = None
  end.

End Grammar.

Import Grammar.

(** ** Shapes of texts, for the properties of the tokens and the output *)

Module Shape.

Definition non_ws (c : code_unit) : bool := negb (is_ws c).

(** The characters with a meaning of their own in HTML text. *)
Definition markup_char (c : code_unit) : bool :=
  ((c =? 38) || (c =? 60) || (c =? 62))%N.

(** A text that holds no line feed: what a line of a text is. *)
Definition nl_free (l : jsstring) : bool :=
  forallb (fun c => negb (c =? NL)%N) l.

(** The characters of a number written by [NumberToString]: digits, the
    point, the signs, [e], and the letters of [Infinity] and [NaN]. *)
Definition number_char (c : code_unit) : bool :=
  is_decimal_digit c ||
  existsb (N.eqb c) (u "+-.e" ++ u "Infinity" ++ u "NaN").

(** A token as [split] leaves it: the separator matches nowhere in it
    and it does not end with white space. *)
Definition token_ok (t : jsstring) : Prop :=
  Separator.test t = false /\ trailing_ws t = false.

End Shape.

Import Shape.

(** ** The paths of a report *)

Module Paths.

Section WithPath.

Variable path_join : jsstring -> jsstring -> jsstring.
Variable path_basename : jsstring -> jsstring -> jsstring.
Variable dirname : jsstring.

(** [dashboardDir] of [saveHTMLToFile]. *)
Definition dashboardDir : jsstring := path_join dirname (u "../dashboards").

(** [outputPath] of [saveHTMLToFile], for the file name that
    [pdfTableToHTMLDashboard] passes. *)
Definition outputPath (filePath : jsstring) : jsstring :=
  path_join dashboardDir (path_basename filePath (u ".pdf") ++ u ".html").

End WithPath.

End Paths.

Import Paths.

(** ** Inputs used below *)

Module Examples.

Definition tabbed (cells : list jsstring) : jsstring :=
  match cells with
  | [] => []
  | c :: r => c ++ concat (map (fun x => TAB :: x) r)
  end.

Definition unlines (ls : list jsstring) : jsstring :=
  match ls with
  | [] => []
  | l :: r => l ++ concat (map (fun x => NL :: x) r)
  end.

(** The spec's header line and its two data lines; the last one is
    [Bob], a tab, two spaces, [badrow]. *)
Definition roundtrip_text : jsstring :=
  unlines [tabbed [u "Name"; u "Age"; u "City"];
           tabbed [u "Alice"; u "30"; u "NYC"];
           tabbed [u "Bob"; u "  badrow"]].

(** A header of two cells and one data line of three. *)
Definition ragged_text : jsstring :=
  unlines [tabbed [u "a"; u "b"]; tabbed [u "c"; u "d"; u "e"]].

(** A header whose second cell follows its tab after one space. *)
Definition spaced_header_text : jsstring :=
  unlines [tabbed [u "a"; u " b"]; tabbed [u "c"; u "d"]].

(** One candidate line only. *)
Definition single_line_text : jsstring :=
  unlines [u "Only a title"; tabbed [u "Name"; u "Score"]; u "the end"].

(** Lines whose one run of white space is their indentation. *)
Definition indented_line : jsstring := u "   Total".
Definition indented_tab_line : jsstring := u "  a" ++ [TAB] ++ u "b".

Definition indented_text : jsstring :=
  unlines [u "Report"; indented_line; u "x  y"; u "  7"].

(** The spec's scenario of two columns and two data rows. *)
Definition scores_text : jsstring :=
  unlines [u "Name   Score"; u "Alice   90"; u "Bob     85"; []].

(** Storages holding one document each. *)
Definition notes_world : MemFS :=
  mkMemFS [(u "notes.pdf", single_line_text)] [].

Definition scores_world : MemFS :=
  mkMemFS [(u "scores.pdf", scores_text)] [].

Definition run_dashboard (filePath : jsstring) : Async MemFS jsstring :=
  pdfTableToHTMLDashboard plain_pdfParse slash_join keep_basename (u "utils")
    filePath.

End Examples.

Import Examples.

(** * Properties *)

Unset Implicit Arguments.

(** ** Strings *)

Section StringFacts.

Lemma jsstring_eqb_eq (a b : jsstring) : jsstring_eqb a b = true <-> a = b.
Proof.
  unfold jsstring_eqb. destruct (list_eq_dec N.eq_dec a b); split; congruence.
Qed.

Lemma jsstring_eqb_refl (a : jsstring) : jsstring_eqb a a = true.
Proof. now apply jsstring_eqb_eq. Qed.

Lemma dropws_leading (s : jsstring) : leading_ws (dropws s) = false.
Proof.
  induction s as [|c s IH]; simpl; auto.
  destruct (is_ws c) eqn:E; auto.
Qed.

Lemma dropws_id (s : jsstring) : leading_ws s = false -> dropws s = s.
Proof.
  destruct s as [|c s]; simpl; auto. intros ->. reflexivity.
Qed.

Lemma dropws_all_ws (w s : jsstring) :
  forallb is_ws w = true -> dropws (w ++ s) = dropws s.
Proof.
  induction w as [|c w IH]; simpl; auto.
  intros H. apply andb_true_iff in H as [-> H]. auto.
Qed.

Lemma dropws_all_ws_nil (w : jsstring) :
  forallb is_ws w = true -> dropws w = [].
Proof.
  intros H. rewrite <- (app_nil_r w). rewrite dropws_all_ws; auto.
Qed.

(** Dropping white space in front of a text that ends with another
    character keeps that character at the end. *)
Lemma dropws_snoc (l : jsstring) (c : code_unit) :
  is_ws c = false -> exists l', dropws (l ++ [c]) = l' ++ [c].
Proof.
  intros Hc. induction l as [|a l [l' IH]]; simpl.
  - rewrite Hc. exists []. reflexivity.
  - destruct (is_ws a).
    + exists l'. exact IH.
    + exists (a :: l). reflexivity.
Qed.

Lemma trim_trailing (s : jsstring) : trailing_ws (trim s) = false.
Proof.
  unfold trailing_ws, trim. rewrite rev_involutive. apply dropws_leading.
Qed.

Lemma trim_leading (s : jsstring) : leading_ws (trim s) = false.
Proof.
  unfold trim. pose proof (dropws_leading s) as H.
  destruct (dropws s) as [|c d]; [reflexivity|].
  simpl in H. simpl rev.
  destruct (dropws_snoc (rev d) c H) as [l' ->].
  rewrite rev_app_distr. simpl. exact H.
Qed.

(** [trim] gives back the text between the leading and the trailing
    white space. *)
Lemma trim_indent (lead core trail : jsstring) :
  forallb is_ws lead = true -> forallb is_ws trail = true ->
  leading_ws core = false -> trailing_ws core = false ->
  trim (lead ++ core ++ trail) = core.
Proof.
  intros Hl Ht Hc1 Hc2. unfold trim.
  rewrite dropws_all_ws by assumption.
  destruct core as [|c core].
  - simpl. rewrite (dropws_all_ws_nil _ Ht). reflexivity.
  - simpl in Hc1. simpl app. simpl dropws. rewrite Hc1.
    change (c :: core ++ trail) with ((c :: core) ++ trail).
    rewrite rev_app_distr.
    rewrite dropws_all_ws.
    + rewrite dropws_id by exact Hc2. apply rev_involutive.
    + rewrite forallb_forall in *. intros x Hx. apply Ht.
      now apply in_rev.
Qed.

Lemma trim_idempotent (s : jsstring) : trim (trim s) = trim s.
Proof.
  pose proof (trim_indent [] (trim s) [] eq_refl eq_refl
                (trim_leading s) (trim_trailing s)) as H.
  simpl in H. now rewrite app_nil_r in H.
Qed.

End StringFacts.

(** ** The separator *)

Section SeparatorFacts.

Lemma ws_run_two (c : code_unit) (s : jsstring) :
  (2 <=? Separator.ws_run (c :: s)) = is_ws c && leading_ws s.
Proof.
  simpl. destruct (is_ws c); [|reflexivity].
  destruct s as [|c2 s]; simpl; [reflexivity|].
  destruct (is_ws c2); reflexivity.
Qed.

Lemma match_at_cons (c : code_unit) (s : jsstring) :
  Separator.match_at (c :: s) = None <->
  (c =? TAB)%N = false /\ is_ws c && leading_ws s = false.
Proof.
  unfold Separator.match_at. rewrite ws_run_two.
  destruct (c =? TAB)%N; [split; [discriminate | intros [? _]; discriminate]|].
  destruct (is_ws c && leading_ws s); split; try discriminate; auto.
  intros [_ ?]; discriminate.
Qed.

(** The expression matches somewhere in a text exactly when the text
    holds a tab or two white-space characters in a row. *)
Lemma test_spec (s : jsstring) :
  Separator.test s = has_tab s || has_ws_run s.
Proof.
  induction s as [|c s IH]; [reflexivity|].
  change (Separator.test (c :: s))
    with (match Separator.match_at (c :: s) with
          | Some _ => true
          | None => Separator.test s
          end).
  destruct (Separator.match_at (c :: s)) as [n|] eqn:E.
  - assert (Hn : ~ ((c =? TAB)%N = false /\ is_ws c && leading_ws s = false)).
    { intros H. apply match_at_cons in H. congruence. }
    change (has_tab (c :: s)) with ((TAB =? c)%N || has_tab s).
    rewrite (N.eqb_sym TAB c).
    destruct (c =? TAB)%N; [reflexivity|].
    destruct s as [|c2 s]; simpl in *.
    + rewrite andb_false_r in Hn. tauto.
    + destruct (is_ws c && is_ws c2); [now rewrite orb_true_r | tauto].
  - apply match_at_cons in E as [E1 E2]. rewrite IH.
    change (has_tab (c :: s)) with ((TAB =? c)%N || has_tab s).
    rewrite (N.eqb_sym TAB c), E1.
    destruct s as [|c2 s]; [reflexivity|].
    simpl in E2. simpl has_ws_run. rewrite E2. reflexivity.
Qed.

Lemma test_cons_false (c : code_unit) (s : jsstring) :
  Separator.test (c :: s) = false ->
  Separator.match_at (c :: s) = None /\ Separator.test s = false.
Proof.
  change (Separator.test (c :: s))
    with (match Separator.match_at (c :: s) with
          | Some _ => true
          | None => Separator.test s
          end).
  destruct (Separator.match_at (c :: s)); [discriminate | auto].
Qed.

(** Where the separator matches nowhere, the text is one token. *)
Lemma split_from_no_match (s tok : jsstring) :
  Separator.test s = false ->
  Separator.split_from 0 tok s = [rev tok ++ s].
Proof.
  revert tok. induction s as [|c s IH]; intros tok H.
  - simpl. now rewrite app_nil_r.
  - apply test_cons_false in H as [Hm Ht].
    change (Separator.split_from 0 tok (c :: s))
      with (match Separator.match_at (c :: s) with
            | Some (S n) => rev tok :: Separator.split_from n [] s
            | _ => Separator.split_from 0 (c :: tok) s
            end).
    rewrite Hm, IH by assumption. simpl. now rewrite <- app_assoc.
Qed.

Lemma split_no_match (s : jsstring) :
  Separator.test s = false -> Separator.split s = [s].
Proof. intros H. unfold Separator.split. now rewrite split_from_no_match. Qed.

End SeparatorFacts.

(** ** Extraction *)

Section ExtractFacts.

(** The candidate filter in words: not blank once trimmed, and holding
    a tab or two white-space characters in a row. *)
Lemma is_candidate_spec (line : jsstring) :
  is_candidate line = true <->
  trim line <> [] /\ (has_tab line = true \/ has_ws_run line = true).
Proof.
  unfold is_candidate. rewrite andb_true_iff, test_spec, orb_true_iff.
  destruct (trim line) as [|c t]; simpl.
  - split; [intros [? _]; discriminate | intros [? _]; congruence].
  - split; intros [_ ?]; split; auto; discriminate.
Qed.

Lemma extractTable_text_few (text : jsstring) :
  length (candidate_lines text) < 2 ->
  extractTable_text text = Throw NoTabularDataError.
Proof.
  intros H. unfold extractTable_text.
  apply Nat.ltb_lt in H. now rewrite H.
Qed.

Lemma extractTable_text_enough (text : jsstring) :
  2 <= length (candidate_lines text) ->
  extractTable_text text =
  Ok (mkTable (hd [] (map tokenize (candidate_lines text)))
        (map (map coerce)
           (kept_rows (hd [] (map tokenize (candidate_lines text)))
              (map tokenize (candidate_lines text))))).
Proof.
  intros H. unfold extractTable_text.
  apply Nat.ltb_ge in H. now rewrite H.
Qed.

Lemma extractTable_text_cases (text : jsstring) :
  (length (candidate_lines text) < 2 /\
   extractTable_text text = Throw NoTabularDataError) \/
  (2 <= length (candidate_lines text) /\
   exists t, extractTable_text text = Ok t /\
     headers t = hd [] (map tokenize (candidate_lines text)) /\
     values t =
       map (map coerce)
         (kept_rows (headers t) (map tokenize (candidate_lines text)))).
Proof.
  destruct (Nat.lt_ge_cases (length (candidate_lines text)) 2) as [H|H].
  - left. split; [assumption | now apply extractTable_text_few].
  - right. split; [assumption|]. eexists. split.
    + now apply extractTable_text_enough.
    + split; reflexivity.
Qed.

Lemma extractTable_text_ok (text : jsstring) (t : Table) :
  extractTable_text text = Ok t ->
  2 <= length (candidate_lines text) /\
  headers t = hd [] (map tokenize (candidate_lines text)) /\
  values t =
    map (map coerce)
      (kept_rows (headers t) (map tokenize (candidate_lines text))).
Proof.
  intros H.
  destruct (extractTable_text_cases text) as [[_ E]|[Hn [t' [E [Hh Hv]]]]].
  - congruence.
  - rewrite E in H. injection H as <-. auto.
Qed.

End ExtractFacts.

(** ** The claims on [extractTable] *)

Section ExtractClaims.

Lemma tl_map {A B : Type} (f : A -> B) (l : list A) :
  tl (map f l) = map f (tl l).
Proof. destruct l; reflexivity. Qed.

Lemma kept_rows_length (hs : list jsstring) (rows : list (list jsstring)) :
  Forall (fun row => length row = length hs) (kept_rows hs rows).
Proof.
  unfold kept_rows. apply Forall_forall. intros row H.
  apply filter_In in H as [_ H]. now apply Nat.eqb_eq.
Qed.

(** C1. Every row of a returned table has as many cells as there are
    headers: [values] is the conversion, cell by cell, of exactly those
    tokenized candidate lines after the first whose token count is the
    header's, so a line with another count is in [values] under no
    form. *)
Theorem extractTable_rows_match_headers (text : jsstring) (t : Table) :
  extractTable_text text = Ok t ->
  Forall (fun row => length row = length (headers t)) (values t) /\
  values t =
    map (map coerce)
      (filter (fun toks => length toks =? length (headers t))
         (map tokenize (tl (candidate_lines text)))) /\
  (forall toks,
     In toks (map tokenize (tl (candidate_lines text))) ->
     length toks <> length (headers t) ->
     ~ In (map coerce toks) (values t)).
Proof.
  intros H. apply extractTable_text_ok in H as [_ [Hh Hv]].
  assert (Hall : Forall (fun row => length row = length (headers t))
                   (values t)).
  { rewrite Hv. apply Forall_map.
    eapply Forall_impl; [|apply kept_rows_length].
    intros row Hr. now rewrite length_map. }
  split; [exact Hall|]. split.
  - rewrite Hv at 1. unfold kept_rows. now rewrite tl_map.
  - intros toks _ Hlen Hin.
    rewrite Forall_forall in Hall. apply Hall in Hin.
    rewrite length_map in Hin. contradiction.
Qed.

Lemma extractTable_rows_match_headers_witness :
  extractTable_text roundtrip_text =
    Ok (mkTable [u "Name"; u "Age"; u "City"]
          [[CStr (u "Alice"); CNum (of_Z 30); CStr (u "NYC")];
           [CStr (u "Bob"); CStr []; CStr (u "badrow")]]) /\
  Forall (fun row => length row = 3)
    [[CStr (u "Alice"); CNum (of_Z 30); CStr (u "NYC")];
     [CStr (u "Bob"); CStr []; CStr (u "badrow")]].
Proof.
  split; [vm_compute; reflexivity|].
  apply (extractTable_rows_match_headers roundtrip_text
           (mkTable [u "Name"; u "Age"; u "City"]
              [[CStr (u "Alice"); CNum (of_Z 30); CStr (u "NYC")];
               [CStr (u "Bob"); CStr []; CStr (u "badrow")]])).
  vm_compute; reflexivity.
Defined.

Lemma tabular_shape_spec_is_candidate (line : jsstring) :
  tabular_shape_spec line = is_candidate line.
Proof.
  unfold tabular_shape_spec, is_candidate. rewrite test_spec. f_equal.
  destruct (trim line); reflexivity.
Qed.

(** C2. Where fewer than two lines of the text pass the candidate test
    (not blank once trimmed, and holding a tab or two white-space
    characters in a row), extraction throws the error with the message
    [No table-like data found] and returns no table. *)
Theorem extractTable_few_candidates_throws (text : jsstring) :
  length (filter tabular_shape_spec (split_nl text)) < 2 ->
  extractTable_text text = Throw (Error (u "No table-like data found")) /\
  forall t, extractTable_text text <> Ok t.
Proof.
  intros H.
  rewrite (filter_ext _ _ tabular_shape_spec_is_candidate) in H.
  apply extractTable_text_few in H. rewrite H.
  split; [reflexivity | discriminate].
Qed.

Lemma extractTable_few_candidates_throws_witness :
  length (filter tabular_shape_spec (split_nl single_line_text)) < 2 /\
  extractTable_text single_line_text =
    Throw (Error (u "No table-like data found")).
Proof.
  assert (H : length (filter tabular_shape_spec (split_nl single_line_text))
              < 2) by (vm_compute; lia).
  split; [exact H|].
  exact (proj1 (extractTable_few_candidates_throws single_line_text H)).
Defined.

Example roundtrip_text_spelled :
  roundtrip_text =
  u "Name" ++ [TAB] ++ u "Age" ++ [TAB] ++ u "City" ++ [NL] ++
  u "Alice" ++ [TAB] ++ u "30" ++ [TAB] ++ u "NYC" ++ [NL] ++
  u "Bob" ++ [TAB] ++ u "  badrow".
Proof. reflexivity. Qed.

(** The table of the spec's example, with the one row for Alice, is not
    what the code returns on the spec's three lines. *)
Lemma roundtrip_keeps_second_row :
  extractTable_text roundtrip_text <>
  Ok (mkTable [u "Name"; u "Age"; u "City"]
        [[CStr (u "Alice"); CNum (of_Z 30); CStr (u "NYC")]]).
Proof. vm_compute. discriminate. Qed.

(** C4. The code on the spec's input, where it departs from the claim.
    On the header line [Name], [Age], [City] and the data lines for
    Alice and Bob, the code returns the three headers and both rows, not
    the row for Alice alone: in [/\t|\s{2,}/] the tab is tried first
    and matches by itself, the two spaces behind it match once more, and
    the line for Bob has three cells, the middle one empty, as many as
    the header.  The same gap written the other way round, two spaces
    then a tab, or a tab between two spaces, is one separator, and the
    line has the two cells the claim counts. *)
Theorem roundtrip_table :
  tokenize (tabbed [u "Bob"; u "  badrow"]) = [u "Bob"; []; u "badrow"] /\
  extractTable_text roundtrip_text =
    Ok (mkTable [u "Name"; u "Age"; u "City"]
          [[CStr (u "Alice"); CNum (of_Z 30); CStr (u "NYC")];
           [CStr (u "Bob"); CStr []; CStr (u "badrow")]]) /\
  tokenize (u "Bob  " ++ [TAB] ++ u "badrow") = [u "Bob"; u "badrow"] /\
  tokenize (u "Bob " ++ [TAB] ++ u " badrow") = [u "Bob"; u "badrow"].
Proof. repeat split; vm_compute; reflexivity. Qed.

(** C6, as the spec has it, fails: the one data line of [ragged_text]
    is dropped, and the result is a table of headers only, not an
    error. *)
Lemma header_only_table_is_returned :
  kept_rows [u "a"; u "b"] (map tokenize (candidate_lines ragged_text)) = [] /\
  extractTable_text ragged_text = Ok (mkTable [u "a"; u "b"] []).
Proof. split; vm_compute; reflexivity. Qed.

(** C6, amended. With two candidate lines or more, extraction returns a
    table and throws nothing, also when no data line has the header's
    token count: the table then has the headers and no rows.  The one
    failure of this part of the code is the one for fewer than two
    candidate lines. *)
Theorem extractTable_succeeds_on_two_candidates (text : jsstring) :
  2 <= length (candidate_lines text) ->
  exists t,
    extractTable_text text = Ok t /\
    headers t = hd [] (map tokenize (candidate_lines text)) /\
    (kept_rows (headers t) (map tokenize (candidate_lines text)) = [] ->
     values t = []).
Proof.
  intros H.
  destruct (extractTable_text_cases text) as [[Hlt _]|[_ [t [E [Hh Hv]]]]].
  - lia.
  - exists t. split; [exact E|]. split; [exact Hh|].
    intros Hk. now rewrite Hv, Hk.
Qed.

Lemma extractTable_succeeds_on_two_candidates_witness :
  2 <= length (candidate_lines ragged_text) /\
  exists t,
    extractTable_text ragged_text = Ok t /\
    headers t = hd [] (map tokenize (candidate_lines ragged_text)) /\
    (kept_rows (headers t) (map tokenize (candidate_lines ragged_text)) = [] ->
     values t = []).
Proof.
  assert (H : 2 <= length (candidate_lines ragged_text))
    by (vm_compute; lia).
  split; [exact H|].
  exact (extractTable_succeeds_on_two_candidates ragged_text H).
Defined.

(** Every string cell of a data row is a trimmed text. *)
Lemma coerce_string_trimmed (value s : jsstring) :
  coerce value = CStr s -> leading_ws s = false /\ trailing_ws s = false.
Proof.
  unfold coerce.
  destruct (negb (isNaN (StringToNumber (trim value))) &&
            negb (jsstring_eqb (trim value) [])); [discriminate|].
  intros H. injection H as <-. split; [apply trim_leading|apply trim_trailing].
Qed.

Lemma values_strings_trimmed (text : jsstring) (t : Table) :
  extractTable_text text = Ok t ->
  forall row s, In row (values t) -> In (CStr s) row ->
  leading_ws s = false /\ trailing_ws s = false.
Proof.
  intros H row s Hrow Hs.
  apply extractTable_text_ok in H as [_ [_ Hv]].
  rewrite Hv in Hrow. apply in_map_iff in Hrow as [toks [<- _]].
  apply in_map_iff in Hs as [value [Hc _]].
  eapply coerce_string_trimmed; eassumption.
Qed.

(** C7. The code at a header line whose second cell follows its tab
    after one space: the tab alone is the separator, and the header
    keeps the space, since only the cells of data rows pass through
    [trim]. *)
Theorem header_keeps_leading_space :
  extractTable_text spaced_header_text =
    Ok (mkTable [u "a"; u " b"] [[CStr (u "c"); CStr (u "d")]]) /\
  leading_ws (u " b") = true.
Proof. split; vm_compute; reflexivity. Qed.

End ExtractClaims.

(** ** Indented lines *)

Section IndentClaims.

(** C10, as stated, fails: the one run of white space of
    [indented_tab_line] is its indentation, and the line is a candidate,
    yet its trimmed text holds a tab and splits in two cells. *)
Lemma indented_tab_line_has_two_cells :
  has_ws_run indented_tab_line = true /\
  has_ws_run (trim indented_tab_line) = false /\
  is_candidate indented_tab_line = true /\
  tokenize indented_tab_line = [u "a"; u "b"].
Proof. repeat split; vm_compute; reflexivity. Qed.

(** C10, amended. The candidate test reads the line as it is, before
    trimming.  A line that is not blank, that holds a run of two or more
    white-space characters, and whose trimmed text holds neither such a
    run nor a tab, is a candidate and is tokenized to the one cell that
    is its trimmed text; where it is the first candidate line of a text,
    the returned table has that one header. *)
Theorem indented_line_is_one_cell (line : jsstring) :
  trim line <> [] ->
  has_ws_run line = true ->
  has_ws_run (trim line) = false ->
  has_tab (trim line) = false ->
  is_candidate line = true /\
  tokenize line = [trim line] /\
  forall text t,
    hd_error (candidate_lines text) = Some line ->
    extractTable_text text = Ok t ->
    headers t = [trim line] /\ length (headers t) = 1.
Proof.
  intros Hne Hrun Hcore Htab.
  assert (Htok : tokenize line = [trim line]).
  { unfold tokenize. apply split_no_match.
    now rewrite test_spec, Htab, Hcore. }
  split; [|split].
  - apply is_candidate_spec. auto.
  - exact Htok.
  - intros text t Hfirst Hok.
    apply extractTable_text_ok in Hok as [_ [Hh _]].
    assert (E : headers t = [trim line]).
    { rewrite Hh. destruct (candidate_lines text) as [|l ls]; [discriminate|].
      simpl in Hfirst. injection Hfirst as ->. simpl. exact Htok. }
    split; [exact E | now rewrite E].
Qed.

Lemma indented_line_is_one_cell_witness :
  is_candidate indented_line = true /\
  tokenize indented_line = [u "Total"] /\
  extractTable_text indented_text = Ok (mkTable [u "Total"] [[CNum (of_Z 7)]]) /\
  headers (mkTable [u "Total"] [[CNum (of_Z 7)]]) = [trim indented_line].
Proof.
  assert (H1 : trim indented_line <> []) by (vm_compute; discriminate).
  assert (H2 : has_ws_run indented_line = true) by reflexivity.
  assert (H3 : has_ws_run (trim indented_line) = false) by reflexivity.
  assert (H4 : has_tab (trim indented_line) = false) by reflexivity.
  destruct (indented_line_is_one_cell indented_line H1 H2 H3 H4)
    as [Hc [Ht Hh]].
  split; [exact Hc|]. split; [exact Ht|].
  split; [vm_compute; reflexivity|].
  apply (Hh indented_text); vm_compute; reflexivity.
Defined.

End IndentClaims.

(** ** Rendering *)

Section RenderClaims.

Lemma starts_with_app (n r : jsstring) : starts_with n (n ++ r) = true.
Proof.
  induction n as [|a n IH]; simpl; [reflexivity|].
  now rewrite N.eqb_refl.
Qed.

Lemma starts_with_app_r (n h post : jsstring) :
  starts_with n h = true -> starts_with n (h ++ post) = true.
Proof.
  revert h. induction n as [|a n IH]; intros h H; [reflexivity|].
  destruct h as [|b h]; [discriminate|]. simpl in *.
  apply andb_true_iff in H as [-> H]. now apply IH.
Qed.

Lemma occurs_unfold (n h : jsstring) :
  occurs n h =
  starts_with n h || match h with [] => false | _ :: h' => occurs n h' end.
Proof. destruct h; reflexivity. Qed.

Lemma occurs_here (n post : jsstring) : occurs n (n ++ post) = true.
Proof. rewrite occurs_unfold, starts_with_app. reflexivity. Qed.

Lemma occurs_after (n pre h : jsstring) :
  occurs n h = true -> occurs n (pre ++ h) = true.
Proof.
  intros H. induction pre as [|a pre IH]; [exact H|].
  simpl app. rewrite occurs_unfold, IH. apply orb_true_r.
Qed.

Lemma occurs_before (n h post : jsstring) :
  occurs n h = true -> occurs n (h ++ post) = true.
Proof.
  induction h as [|a h IH]; intros H.
  - rewrite occurs_unfold in H. rewrite orb_false_r in H.
    destruct n; [|discriminate]. destruct post; reflexivity.
  - rewrite occurs_unfold in H. apply orb_true_iff in H as [H|H].
    + rewrite occurs_unfold.
      rewrite (starts_with_app_r n (a :: h) post H). reflexivity.
    + simpl app. rewrite occurs_unfold, (IH H). apply orb_true_r.
Qed.

Lemma occurs_join (n part : jsstring) (parts : list jsstring) :
  In part parts -> occurs n part = true ->
  occurs n (join_empty parts) = true.
Proof.
  intros Hin Hn. induction parts as [|p parts IH]; [contradiction|].
  unfold join_empty. simpl concat. destruct Hin as [->|Hin].
  - now apply occurs_before.
  - apply occurs_after. now apply IH.
Qed.

Lemma occurs_tr (n part : jsstring) (parts : list jsstring) :
  In part parts -> occurs n part = true -> occurs n (tr parts) = true.
Proof.
  intros Hin Hn. unfold tr. apply occurs_after, occurs_before.
  eapply occurs_join; eassumption.
Qed.

Lemma occurs_refl (n : jsstring) : occurs n n = true.
Proof. rewrite <- (app_nil_r n) at 2. apply occurs_here. Qed.

(** C3, as the spec has it, fails: a cell holding [<script>] is in the
    output as an element of its own inside the table cell, and its
    escaped form is nowhere in the output. *)
Lemma script_cell_is_live_markup :
  occurs (u "<td><script></td>")
    (generateHTML [u "h"] [[CStr (u "<script>")]]) = true /\
  occurs (escape_markup_spec (u "<script>"))
    (generateHTML [u "h"] [[CStr (u "<script>")]]) = false.
Proof. split; vm_compute; reflexivity. Qed.

(** C3, amended. The renderer escapes nothing: for every table and every
    cell of it, the text of the cell is in the output as it is, between
    the opening and the closing tag of a table cell; a cell holding
    [<script>] is there unescaped. *)
Theorem generateHTML_cells_verbatim
    (hs : list jsstring) (vs : list (list Cell)) (row : list Cell)
    (c : Cell) :
  In row vs -> In c row ->
  occurs (u "<td>" ++ cell_text c ++ u "</td>") (generateHTML hs vs) = true.
Proof.
  intros Hrow Hc. unfold generateHTML.
  apply occurs_after, occurs_after, occurs_before.
  apply occurs_join with (part := tr (map td row)).
  - apply in_map_iff. exists row. split; [reflexivity | exact Hrow].
  - apply occurs_tr with (part := td c).
    + now apply in_map.
    + apply occurs_refl.
Qed.

Lemma generateHTML_cells_verbatim_witness :
  occurs (u "<td>" ++ u "<script>" ++ u "</td>")
    (generateHTML [u "h"] [[CNum (of_Z 1); CStr (u "<script>")]]) = true.
Proof.
  apply (generateHTML_cells_verbatim [u "h"]
           [[CNum (of_Z 1); CStr (u "<script>")]]
           [CNum (of_Z 1); CStr (u "<script>")] (CStr (u "<script>"))).
  - simpl. left. reflexivity.
  - simpl. right. left. reflexivity.
Defined.

End RenderClaims.

(** ** The pipeline *)

Section PipelineClaims.

Context {World : Type} `{Storage World}.
Variable pdfParse : Buffer -> result jsstring.
Variable path_join : jsstring -> jsstring -> jsstring.
Variable path_basename : jsstring -> jsstring -> jsstring.
Variable dirname : jsstring.

Lemma read_text_world (filePath : jsstring) (w : World) :
  snd (read_text pdfParse filePath w) = w.
Proof.
  unfold read_text, bind, lift.
  destruct (readFile filePath w); reflexivity.
Qed.

Lemma extractTable_world (filePath : jsstring) (w : World) :
  snd (extractTable pdfParse filePath w) = w.
Proof.
  unfold extractTable, bind, lift.
  pose proof (read_text_world filePath w) as Hr.
  destruct (read_text pdfParse filePath w) as [[text|e] w']; simpl in *;
    now subst.
Qed.

(** [extractTable] hands the text it read to lines 10 to 25 and leaves
    the storage as it was. *)
Lemma extractTable_of_text (filePath : jsstring) (w : World)
    (text : jsstring) :
  fst (read_text pdfParse filePath w) = Ok text ->
  extractTable pdfParse filePath w = (extractTable_text text, w).
Proof.
  intros Hr. unfold extractTable, bind, lift.
  pose proof (read_text_world filePath w) as Hw.
  destruct (read_text pdfParse filePath w) as [r w']; simpl in *.
  subst. reflexivity.
Qed.

Lemma pdfTableToHTMLDashboard_steps (filePath : jsstring) (w : World) :
  pdfTableToHTMLDashboard pdfParse path_join path_basename dirname filePath w =
  match extractTable pdfParse filePath w with
  | (Ok t, w') =>
      saveHTMLToFile path_join dirname (generateHTML (headers t) (values t))
        (path_basename filePath (u ".pdf")) w'
  | (Throw e, w') => (Throw e, w')
  end.
Proof.
  unfold pdfTableToHTMLDashboard. unfold bind at 1.
  destruct (extractTable pdfParse filePath w) as [[t|e] w']; [|reflexivity].
  unfold bind at 1, ret.
  destruct (saveHTMLToFile _ _ _ _ w') as [[q|e] w2]; reflexivity.
Qed.

(** C8. Where extraction throws, be it for want of tabular data or from
    reading or parsing the document, the pipeline throws the same error
    and the storage is in the state it started in: nothing was created
    or written.  The writer runs only in the other case, on the text
    rendered from the whole table. *)
Theorem no_report_without_table (filePath : jsstring) (w : World) :
  (forall e,
     fst (extractTable pdfParse filePath w) = Throw e ->
     pdfTableToHTMLDashboard pdfParse path_join path_basename dirname
       filePath w = (Throw e, w)) /\
  (forall t,
     fst (extractTable pdfParse filePath w) = Ok t ->
     pdfTableToHTMLDashboard pdfParse path_join path_basename dirname
       filePath w =
     saveHTMLToFile path_join dirname (generateHTML (headers t) (values t))
       (path_basename filePath (u ".pdf")) w).
Proof.
  pose proof (extractTable_world filePath w) as Hw.
  rewrite pdfTableToHTMLDashboard_steps.
  destruct (extractTable pdfParse filePath w) as [[t|e] w']; simpl in Hw;
    subst w'; split; intros x Hx; simpl in Hx; try discriminate;
    injection Hx as <-; reflexivity.
Qed.

End PipelineClaims.

Lemma no_report_without_table_witness :
  fst (extractTable plain_pdfParse (u "notes.pdf") notes_world) =
    Throw NoTabularDataError /\
  run_dashboard (u "notes.pdf") notes_world =
    (Throw NoTabularDataError, notes_world).
Proof.
  assert (H : fst (extractTable plain_pdfParse (u "notes.pdf") notes_world)
              = Throw NoTabularDataError) by (vm_compute; reflexivity).
  split; [exact H|].
  exact (proj1 (no_report_without_table plain_pdfParse slash_join
                  keep_basename (u "utils") (u "notes.pdf") notes_world)
           NoTabularDataError H).
Defined.

(** The spec's scenario, run on the storage in memory: the report is
    written under the name of the document. *)
Example scores_dashboard_written :
  extractTable_text scores_text =
    Ok (mkTable [u "Name"; u "Score"]
          [[CStr (u "Alice"); CNum (of_Z 90)];
           [CStr (u "Bob"); CNum (of_Z 85)]]) /\
  fst (run_dashboard (u "scores.pdf") scores_world) =
    Ok (u "utils/../dashboards/scores.pdf.html") /\
  dirs (snd (run_dashboard (u "scores.pdf") scores_world)) =
    [u "utils/../dashboards"] /\
  lookup (u "utils/../dashboards/scores.pdf.html")
    (files (snd (run_dashboard (u "scores.pdf") scores_world))) =
    Some (generateHTML [u "Name"; u "Score"]
            [[CStr (u "Alice"); CNum (of_Z 90)];
             [CStr (u "Bob"); CNum (of_Z 85)]]).
Proof. repeat split; vm_compute; reflexivity. Qed.

(** ** Numbers *)

Section NumberFacts.

Ltac split_cmp :=
  repeat (match goal with
          | |- context [(?a <=? ?b)%N] => destruct (N.leb_spec a b)
          | |- context [(?a <? ?b)%N] => destruct (N.ltb_spec a b)
          | |- context [(?a =? ?b)%N] => destruct (N.eqb_spec a b)
          end; simpl).

Lemma DecimalDigit_is_digit (c : code_unit) :
  DecimalDigit c <-> is_digit 10 c.
Proof.
  unfold DecimalDigit, is_digit, digit_val. split_cmp;
    split; intros; try lia; try congruence.
Qed.

Lemma HexDigit_is_digit (c : code_unit) : HexDigit c <-> is_digit 16 c.
Proof.
  unfold HexDigit, is_digit, digit_val. split_cmp;
    split; intros; try lia; try congruence.
Qed.

Lemma OctalDigit_is_digit (c : code_unit) : OctalDigit c <-> is_digit 8 c.
Proof.
  unfold OctalDigit, is_digit, digit_val. split_cmp;
    split; intros; try lia; try congruence.
Qed.

Lemma BinaryDigit_is_digit (c : code_unit) : BinaryDigit c <-> is_digit 2 c.
Proof.
  unfold BinaryDigit, is_digit, digit_val. split_cmp;
    split; intros; try lia; try congruence.
Qed.

Lemma span_digits_sound (base : N) (s : jsstring) :
  forall ds r, span_digits base s = (ds, r) ->
  exists p, s = p ++ r /\ Forall (is_digit base) p /\
            length p = length ds /\ stops base r.
Proof.
  induction s as [|c s IH]; intros ds r Hs; simpl in Hs.
  - injection Hs as <- <-. exists []. repeat split; constructor.
  - destruct (digit_val base c) as [d|] eqn:E.
    + destruct (span_digits base s) as [ds' r'] eqn:Es.
      injection Hs as <- <-.
      destruct (IH ds' r' eq_refl) as [p [-> [Hp [Hl Hr]]]].
      exists (c :: p). repeat split; simpl; auto.
      constructor; [unfold is_digit; congruence | exact Hp].
    + injection Hs as <- <-. exists []. repeat split; simpl; auto.
Qed.

Lemma span_digits_complete (base : N) (p r : jsstring) :
  Forall (is_digit base) p -> stops base r ->
  exists ds, span_digits base (p ++ r) = (ds, r) /\ length ds = length p.
Proof.
  intros Hp Hr. induction Hp as [|c p Hc Hp IH]; simpl.
  - exists []. split; [|reflexivity].
    destruct r as [|c r]; [reflexivity|]. simpl in *. now rewrite Hr.
  - destruct IH as [ds [-> Hl]]. unfold is_digit in Hc.
    destruct (digit_val base c) as [d|]; [|congruence].
    exists (d :: ds). split; simpl; auto.
Qed.

Lemma decimal_not_NaN (neg : bool) (ds : list N) (e : Z) :
  isNaN (decimal neg ds e) = false.
Proof.
  unfold decimal. destruct (strip_zeros _ _ _). reflexivity.
Qed.

Lemma Digits_span (ds r : jsstring) :
  Digits DecimalDigit ds -> stops 10 r ->
  exists v vs, span_digits 10 (ds ++ r) = (v :: vs, r) /\
               length (v :: vs) = length ds.
Proof.
  intros [Hne Hd] Hr.
  destruct (span_digits_complete 10 ds r) as [vs [E Hl]]; auto.
  { eapply Forall_impl; [|exact Hd]. intros c. apply DecimalDigit_is_digit. }
  destruct vs as [|v vs].
  - destruct ds; [congruence | discriminate].
  - exists v, vs. auto.
Qed.

Lemma span_Digits (s r : jsstring) (v : N) (vs : list N) :
  span_digits 10 s = (v :: vs, r) ->
  exists ds, s = ds ++ r /\ Digits DecimalDigit ds /\
             length ds = length (v :: vs) /\ stops 10 r.
Proof.
  intros E. apply span_digits_sound in E as [p [-> [Hp [Hl Hr]]]].
  exists p. repeat split; auto.
  - destruct p; [discriminate | congruence].
  - eapply Forall_impl; [|exact Hp]. intros c. apply DecimalDigit_is_digit.
Qed.

(** A text that does not begin with a sign. *)
Lemma sign_absent (c : code_unit) (r : jsstring) :
  c <> 43%N -> c <> 45%N -> sign (c :: r) = (false, c :: r).
Proof.
  intros H1 H2. unfold sign.
  apply N.eqb_neq in H1, H2. now rewrite H1, H2.
Qed.

Lemma sign_sound (s r : jsstring) (neg : bool) :
  sign s = (neg, r) -> exists sg, opt Sign sg /\ s = sg ++ r.
Proof.
  unfold sign. destruct s as [|c s].
  - intros E. injection E as <- <-. exists []. split; [now left | reflexivity].
  - destruct (N.eqb_spec c 43) as [->|_].
    { intros E. injection E as <- <-. exists (u "+").
      split; [right; now left | reflexivity]. }
    destruct (N.eqb_spec c 45) as [->|_].
    { intros E. injection E as <- <-. exists (u "-").
      split; [right; now right | reflexivity]. }
    intros E. injection E as <- <-. exists [].
    split; [now left | reflexivity].
Qed.

Lemma DecimalDigit_unsigned (c : code_unit) :
  DecimalDigit c -> c <> 43%N /\ c <> 45%N.
Proof. unfold DecimalDigit. lia. Qed.

Lemma sign_complete (sg body : jsstring) :
  opt Sign sg ->
  (exists c r, body = c :: r /\ c <> 43%N /\ c <> 45%N) ->
  exists neg, sign (sg ++ body) = (neg, body).
Proof.
  intros [->|[->| ->]] [c [r [-> [H1 H2]]]].
  - exists false. now apply sign_absent.
  - exists false. reflexivity.
  - exists true. reflexivity.
Qed.

Lemma Digits_head (D : code_unit -> Prop) (ds : jsstring) :
  Digits D ds -> exists c r, ds = c :: r /\ D c.
Proof.
  intros [Hne Hd]. destruct ds as [|c r]; [congruence|].
  exists c, r. split; [reflexivity | now inversion Hd].
Qed.

Lemma with_exponent_sound (neg : bool) (ds : list N) (fl : nat)
    (r : jsstring) :
  isNaN (with_exponent neg ds fl r) = false -> opt ExponentPart r.
Proof.
  intros Hn. destruct r as [|c r]; [now left|]. right. revert Hn.
  unfold with_exponent.
  destruct ((c =? 101) || (c =? 69))%N eqn:Ec; [|discriminate].
  destruct (sign r) as [eneg r2] eqn:Es.
  destruct (span_digits 10 r2) as [[|v vs] rest] eqn:Ed; [discriminate|].
  destruct rest; [|discriminate]. intros _.
  apply sign_sound in Es as [sg [Hsg ->]].
  apply span_Digits in Ed as [p [-> [Hp _]]]. rewrite app_nil_r.
  constructor; auto.
  apply orb_true_iff in Ec as [Ec|Ec]; apply N.eqb_eq in Ec; auto.
Qed.

Lemma with_exponent_complete (neg : bool) (ds : list N) (fl : nat)
    (r : jsstring) :
  opt ExponentPart r -> isNaN (with_exponent neg ds fl r) = false.
Proof.
  intros [->|Hr]; [apply decimal_not_NaN|].
  destruct Hr as [ind sg xs Hind Hsg Hxs]. unfold with_exponent.
  assert (Ei : ((ind =? 101) || (ind =? 69))%N = true)
    by (destruct Hind as [->| ->]; reflexivity).
  rewrite Ei.
  destruct (sign_complete sg xs Hsg) as [eneg ->].
  { destruct (Digits_head _ _ Hxs) as [c [r' [-> Hc]]].
    exists c, r'. split; [reflexivity | now apply DecimalDigit_unsigned]. }
  destruct (Digits_span xs [] Hxs I) as [v [vs [E _]]].
  rewrite app_nil_r in E. rewrite E. apply decimal_not_NaN.
Qed.

Lemma starts_with_point (r : jsstring) :
  starts_with (u ".") r = true -> exists r2, r = 46%N :: r2.
Proof.
  destruct r as [|c r]; [discriminate|].
  change (starts_with (u ".") (c :: r)) with ((46 =? c)%N && true).
  rewrite andb_true_r. intros E. apply N.eqb_eq in E. subst c. now exists r.
Qed.

Lemma opt_ExponentPart_stops (ex : jsstring) :
  opt ExponentPart ex -> stops 10 ex /\ starts_with (u ".") ex = false.
Proof.
  intros [->|Hex]; [split; [exact I | reflexivity]|].
  destruct Hex as [ind sg ds [->| ->] _ _]; split; reflexivity.
Qed.

Lemma not_Infinity (c : code_unit) (r : jsstring) :
  c <> 73%N -> jsstring_eqb (c :: r) (u "Infinity") = false.
Proof.
  intros Hc. destruct (jsstring_eqb (c :: r) (u "Infinity")) eqn:E;
    [|reflexivity].
  apply jsstring_eqb_eq in E. injection E as E _. contradiction.
Qed.

Lemma unsigned_decimal_sound (neg : bool) (s : jsstring) :
  isNaN (unsigned_decimal neg s) = false -> StrUnsignedDecimalLiteral s.
Proof.
  unfold unsigned_decimal.
  destruct (jsstring_eqb s (u "Infinity")) eqn:Ei.
  { apply jsstring_eqb_eq in Ei. subst s. constructor. }
  destruct (span_digits 10 s) as [ip r1] eqn:E1.
  destruct (starts_with (u ".") r1) eqn:Ep.
  - apply starts_with_point in Ep as [r2 ->]. simpl tl.
    destruct (span_digits 10 r2) as [fp r3] eqn:E2.
    destruct ip as [|v vs].
    + apply span_digits_sound in E1 as [p [-> [_ [Hl _]]]].
      destruct p; [|discriminate]. simpl app.
      destruct fp as [|w ws]; [discriminate|]. intros Hn.
      apply span_Digits in E2 as [q [-> [Hq _]]].
      apply with_exponent_sound in Hn.
      now apply (@SUDL_fraction q r3).
    + simpl app. intros Hn. apply with_exponent_sound in Hn.
      apply span_Digits in E1 as [p [-> [Hp _]]].
      apply span_digits_sound in E2 as [q [-> [Hq _]]].
      apply (@SUDL_point p q r3); auto.
      destruct q as [|c q]; [now left|]. right. split; [discriminate|].
      eapply Forall_impl; [|exact Hq]. intros a. apply DecimalDigit_is_digit.
  - destruct ip as [|v vs]; [discriminate|]. intros Hn.
    apply with_exponent_sound in Hn.
    apply span_Digits in E1 as [p [-> [Hp _]]].
    now apply SUDL_integer.
Qed.

Lemma unsigned_decimal_complete (neg : bool) (s : jsstring) :
  StrUnsignedDecimalLiteral s -> isNaN (unsigned_decimal neg s) = false.
Proof.
  intros Hs. unfold unsigned_decimal.
  destruct Hs as [|ip fp ex Hip Hfp Hex|fp ex Hfp Hex|ip ex Hip Hex].
  - rewrite jsstring_eqb_refl. reflexivity.
  - destruct (Digits_head _ _ Hip) as [c [ip' [-> Hc]]].
    assert (Ei : jsstring_eqb ((c :: ip') ++ u "." ++ fp ++ ex)
                   (u "Infinity") = false)
      by (apply (not_Infinity c (ip' ++ u "." ++ fp ++ ex));
          unfold DecimalDigit in Hc; lia).
    rewrite Ei.
    destruct (Digits_span (c :: ip') (u "." ++ fp ++ ex) Hip eq_refl)
      as [v [vs [-> _]]].
    change (starts_with (u ".") (u "." ++ fp ++ ex)) with true.
    change (tl (u "." ++ fp ++ ex)) with (fp ++ ex).
    destruct (opt_ExponentPart_stops ex Hex) as [Hst _].
    destruct (span_digits_complete 10 fp ex) as [ds [-> Hl]]; auto.
    { destruct Hfp as [->|[_ Hfp]]; [constructor|].
      eapply Forall_impl; [|exact Hfp].
      intros a. apply DecimalDigit_is_digit. }
    simpl app. now apply with_exponent_complete.
  - assert (Ei : jsstring_eqb (u "." ++ fp ++ ex) (u "Infinity") = false)
      by (apply (not_Infinity 46%N (fp ++ ex)); discriminate).
    rewrite Ei.
    destruct (Digits_span fp ex Hfp) as [w [ws [E2 _]]].
    { now apply opt_ExponentPart_stops. }
    change (span_digits 10 (u "." ++ fp ++ ex))
      with ([] : list N, u "." ++ fp ++ ex).
    cbv beta iota.
    change (starts_with (u ".") (u "." ++ fp ++ ex)) with true.
    change (tl (u "." ++ fp ++ ex)) with (fp ++ ex).
    cbv beta iota. rewrite E2. simpl app. now apply with_exponent_complete.
  - destruct (Digits_head _ _ Hip) as [c [ip' [-> Hc]]].
    assert (Ei : jsstring_eqb ((c :: ip') ++ ex) (u "Infinity") = false)
      by (apply (not_Infinity c (ip' ++ ex));
          unfold DecimalDigit in Hc; lia).
    rewrite Ei.
    destruct (opt_ExponentPart_stops ex Hex) as [Hst Hp].
    destruct (Digits_span (c :: ip') ex Hip Hst) as [v [vs [-> _]]].
    rewrite Hp. now apply with_exponent_complete.
Qed.

Lemma integer_not_NaN (m : N) : isNaN (integer m) = false.
Proof. unfold integer. destruct (strip_zeros _ _ _). reflexivity. Qed.

Lemma radix_of_cases (p : code_unit) (b : N) :
  radix_of p = Some b ->
  (b = 16%N /\ (p = 120%N \/ p = 88%N)) \/
  (b = 8%N /\ (p = 111%N \/ p = 79%N)) \/
  (b = 2%N /\ (p = 98%N \/ p = 66%N)).
Proof.
  unfold radix_of. split_cmp; intros E; inversion E; subst; tauto.
Qed.

Lemma radix_of_other (p : code_unit) :
  DecimalDigit p \/ p = 46%N \/ p = 101%N \/ p = 69%N ->
  radix_of p = None.
Proof.
  unfold radix_of, DecimalDigit. split_cmp; intros; try reflexivity; lia.
Qed.

Lemma non_decimal_sound (s : jsstring) (x : Number) :
  non_decimal s = Some x -> isNaN x = false -> StrNumericLiteral s.
Proof.
  unfold non_decimal. destruct s as [|z [|p r]]; try discriminate.
  destruct (N.eqb_spec z 48) as [->|_]; [|discriminate].
  destruct (radix_of p) as [b|] eqn:Er; [|discriminate].
  destruct (span_digits b r) as [[|v vs] rest] eqn:Ed.
  { intros E. injection E as <-. discriminate. }
  destruct rest; [|intros E; injection E as <-; discriminate].
  intros _ _.
  apply span_digits_sound in Ed as [q [-> [Hq [Hl _]]]].
  rewrite app_nil_r.
  assert (Hne : q <> []) by (destruct q; [discriminate | congruence]).
  apply radix_of_cases in Er as [[-> Hp]|[[-> Hp]|[-> Hp]]].
  - apply SNL_hex; [exact Hp|]. split; [exact Hne|].
    eapply Forall_impl; [|exact Hq]. intros a. apply HexDigit_is_digit.
  - apply SNL_octal; [exact Hp|]. split; [exact Hne|].
    eapply Forall_impl; [|exact Hq]. intros a. apply OctalDigit_is_digit.
  - apply SNL_binary; [exact Hp|]. split; [exact Hne|].
    eapply Forall_impl; [|exact Hq]. intros a. apply BinaryDigit_is_digit.
Qed.

Lemma non_decimal_radix (p : code_unit) (b : N) (ds : jsstring) :
  radix_of p = Some b -> ds <> [] -> Forall (is_digit b) ds ->
  exists m, non_decimal (48%N :: p :: ds) = Some (integer m).
Proof.
  intros Er Hne Hd. unfold non_decimal. rewrite N.eqb_refl, Er.
  destruct (span_digits_complete b ds [] Hd I) as [vs [E Hl]].
  rewrite app_nil_r in E. rewrite E.
  destruct vs as [|v vs].
  - destruct ds; [congruence | discriminate].
  - eexists. reflexivity.
Qed.

(** The first characters of an unsigned decimal literal: no sign, and
    after a leading zero no letter that announces a radix. *)
Lemma StrUnsignedDecimalLiteral_head (body : jsstring) :
  StrUnsignedDecimalLiteral body ->
  exists c r, body = c :: r /\ c <> 43%N /\ c <> 45%N /\
    match r with
    | [] => True
    | p :: _ => c = 48%N -> radix_of p = None
    end.
Proof.
  intros [|ip fp ex Hip Hfp Hex|fp ex Hfp Hex|ip ex Hip Hex].
  - eexists _, _. split; [reflexivity|]. repeat split; discriminate.
  - destruct (Digits_head _ _ Hip) as [c [ip' [-> Hc]]].
    exists c, (ip' ++ u "." ++ fp ++ ex). split; [reflexivity|].
    destruct (DecimalDigit_unsigned c Hc) as [H1 H2].
    repeat split; auto.
    destruct Hip as [_ Hall]. inversion Hall as [|a l Ha Hl]; subst.
    destruct ip' as [|p ip'']; simpl; intros _.
    + reflexivity.
    + apply radix_of_other. left. now inversion Hl.
  - eexists _, _. split; [reflexivity|]. repeat split; try discriminate.
    destruct (fp ++ ex); [exact I | discriminate].
  - destruct (Digits_head _ _ Hip) as [c [ip' [-> Hc]]].
    exists c, (ip' ++ ex). split; [reflexivity|].
    destruct (DecimalDigit_unsigned c Hc) as [H1 H2].
    repeat split; auto.
    destruct Hip as [_ Hall]. inversion Hall as [|a l Ha Hl]; subst.
    destruct ip' as [|p ip'']; simpl.
    + destruct Hex as [->|Hex]; [exact I|].
      destruct Hex as [ind sg ds Hind _ _]. intros _.
      apply radix_of_other. tauto.
    + intros _. apply radix_of_other. left. now inversion Hl.
Qed.

Lemma non_decimal_of_decimal (sg body : jsstring) :
  opt Sign sg -> StrUnsignedDecimalLiteral body ->
  non_decimal (sg ++ body) = None.
Proof.
  intros Hsg Hb.
  destruct (StrUnsignedDecimalLiteral_head body Hb)
    as [c [r [-> [_ [_ Hr]]]]].
  destruct Hsg as [->|[->| ->]]; try reflexivity.
  simpl app. unfold non_decimal.
  destruct r as [|p r]; [reflexivity|].
  destruct (N.eqb_spec c 48) as [E|_]; [|reflexivity].
  now rewrite (Hr E).
Qed.

(** The conversion [StringToNumber] accepts a trimmed text that is not
    empty exactly when the text is a StrNumericLiteral. *)
Lemma StringToNumber_grammar (t : jsstring) :
  trim t = t -> t <> [] ->
  isNaN (StringToNumber t) = false <-> StrNumericLiteral t.
Proof.
  intros Ht Hne. unfold StringToNumber. rewrite Ht.
  destruct t as [|c t']; [congruence|]. split.
  - destruct (non_decimal (c :: t')) as [x|] eqn:En.
    + now apply non_decimal_sound.
    + destruct (sign (c :: t')) as [neg r] eqn:Es. intros Hn.
      apply sign_sound in Es as [sg [Hsg ->]].
      apply unsigned_decimal_sound in Hn. now apply SNL_decimal.
  - intros Hs. remember (c :: t') as t eqn:Et.
    destruct Hs as [sg body Hsg Hb|x ds Hx Hd|o ds Ho Hd|b ds Hb Hd].
    + rewrite (non_decimal_of_decimal sg body Hsg Hb).
      destruct (sign_complete sg body Hsg) as [neg ->].
      { destruct (StrUnsignedDecimalLiteral_head body Hb)
          as [a [r [-> [H1 [H2 _]]]]]. now exists a, r. }
      now apply unsigned_decimal_complete.
    + destruct (non_decimal_radix x 16 ds) as [m ->].
      * destruct Hx as [->| ->]; reflexivity.
      * apply Hd.
      * eapply Forall_impl; [|apply Hd]. intros a. apply HexDigit_is_digit.
      * apply integer_not_NaN.
    + destruct (non_decimal_radix o 8 ds) as [m ->].
      * destruct Ho as [->| ->]; reflexivity.
      * apply Hd.
      * eapply Forall_impl; [|apply Hd]. intros a. apply OctalDigit_is_digit.
      * apply integer_not_NaN.
    + destruct (non_decimal_radix b 2 ds) as [m ->].
      * destruct Hb as [->| ->]; reflexivity.
      * apply Hd.
      * eapply Forall_impl; [|apply Hd]. intros a. apply BinaryDigit_is_digit.
      * apply integer_not_NaN.
Qed.

End NumberFacts.

(** ** The conversion of cells *)

Section CoerceClaims.

Example signed_decimal_spec_examples :
  map signed_decimal_spec
    [u "42"; u "4.5"; u "-3"; u "+0.25"; u "abc"; []; u "Infinity";
     u "0x1F"] =
  [true; true; true; true; false; false; false; false].
Proof. reflexivity. Qed.

(** C5, as the spec has it, fails: [Infinity] and [0x1F] are neither an
    integer nor a decimal, signed or not, and each becomes a number. *)
Lemma Infinity_token_becomes_number :
  signed_decimal_spec (trim (u "Infinity")) = false /\
  coerce (u "Infinity") = CNum (Infinity false) /\
  signed_decimal_spec (trim (u "0x1F")) = false /\
  coerce (u "0x1F") = CNum (of_Z 31).
Proof. repeat split; vm_compute; reflexivity. Qed.

(** C5, amended. A cell token becomes a number exactly when its trimmed
    text is not empty and is a numeric string literal of JavaScript
    (StrNumericLiteral: a decimal with an optional sign, an optional
    fraction and an optional exponent, [Infinity] with an optional sign,
    or an unsigned integer written with [0x], [0o] or [0b]); the number
    is the value of that literal and is not NaN.  Any other token stays
    the trimmed string.  So [42] becomes 42, [4.5] becomes 4.5, [abc]
    stays [abc], and the empty token stays the empty string. *)
Theorem coerce_number_iff_literal :
  (forall tok,
     trim tok <> [] /\ StrNumericLiteral (trim tok) ->
     coerce tok = CNum (StringToNumber (trim tok)) /\
     isNaN (StringToNumber (trim tok)) = false) /\
  (forall tok,
     ~ (trim tok <> [] /\ StrNumericLiteral (trim tok)) ->
     coerce tok = CStr (trim tok)) /\
  coerce (u "42") = CNum (of_Z 42) /\
  coerce (u "4.5") = CNum (Finite false 45 (-1)) /\
  coerce (u "abc") = CStr (u "abc") /\
  coerce [] = CStr [].
Proof.
  split; [|split; [|repeat split; vm_compute; reflexivity]].
  - intros tok [Hne Hlit].
    apply (StringToNumber_grammar (trim tok) (trim_idempotent tok) Hne)
      in Hlit.
    split; [|exact Hlit]. unfold coerce. rewrite Hlit.
    destruct (jsstring_eqb (trim tok) []) eqn:E; [|reflexivity].
    apply jsstring_eqb_eq in E. contradiction.
  - intros tok Hnot. unfold coerce.
    destruct (isNaN (StringToNumber (trim tok))) eqn:En; [reflexivity|].
    destruct (jsstring_eqb (trim tok) []) eqn:E; [reflexivity|].
    exfalso. apply Hnot.
    assert (Hne : trim tok <> []).
    { intros Hnil. rewrite Hnil in E. discriminate. }
    split; [exact Hne|].
    now apply (StringToNumber_grammar (trim tok) (trim_idempotent tok) Hne).
Qed.

Lemma coerce_number_iff_literal_witness :
  StrNumericLiteral (trim (u " -12.50e1 ")) /\
  coerce (u " -12.50e1 ") = CNum (of_Z (-125)).
Proof.
  assert (Hne : trim (u " -12.50e1 ") <> []) by (vm_compute; discriminate).
  assert (Hlit : StrNumericLiteral (trim (u " -12.50e1 "))).
  { apply (SNL_decimal (sg := u "-") (body := u "12.50e1")).
    - right. right. reflexivity.
    - apply (SUDL_point (ip := u "12") (fp := u "50") (ex := u "e1")).
      + split; [discriminate|]. repeat constructor; vm_compute; discriminate.
      + right. split; [discriminate|].
        repeat constructor; vm_compute; discriminate.
      + right. apply (ExponentPart_intro (ind := 101%N) (sg := [])
                        (ds := u "1")).
        * left. reflexivity.
        * left. reflexivity.
        * split; [discriminate|].
          repeat constructor; vm_compute; discriminate. }
  split; [exact Hlit|].
  rewrite (proj1 (proj1 coerce_number_iff_literal (u " -12.50e1 ")
                    (conj Hne Hlit))).
  vm_compute. reflexivity.
Defined.

End CoerceClaims.

(** * Further properties of the code *)

(** ** White space at the ends of a text *)

Section TrimShape.

Lemma dropws_parts (s : jsstring) :
  exists lead, s = lead ++ dropws s /\ forallb is_ws lead = true.
Proof.
  induction s as [|c s [lead [E H]]]; simpl.
  - exists []. split; reflexivity.
  - destruct (is_ws c) eqn:Ec.
    + exists (c :: lead). split; [simpl; now f_equal|]. simpl. now rewrite Ec.
    + exists []. split; reflexivity.
Qed.

Lemma forallb_rev {A : Type} (f : A -> bool) (l : list A) :
  forallb f (rev l) = forallb f l.
Proof.
  induction l as [|a l IH]; [reflexivity|]. simpl.
  rewrite forallb_app, IH. simpl. rewrite andb_true_r. apply andb_comm.
Qed.

Lemma trim_parts (s : jsstring) :
  exists lead trail,
    s = lead ++ trim s ++ trail /\
    forallb is_ws lead = true /\ forallb is_ws trail = true.
Proof.
  destruct (dropws_parts s) as [lead [E1 H1]].
  destruct (dropws_parts (rev (dropws s))) as [w [E2 H2]].
  exists lead, (rev w). unfold trim. repeat split.
  - rewrite <- rev_app_distr, <- E2, rev_involutive. exact E1.
  - exact H1.
  - now rewrite forallb_rev.
Qed.

(** X1. [trim] takes white space off the two ends of a text and nothing
    else: the text is its trimmed text between two runs of white space,
    the trimmed text neither starts nor ends with white space, and
    trimming it again changes nothing. *)
Theorem trim_strips_the_ends_only (s : jsstring) :
  (exists lead trail,
     s = lead ++ trim s ++ trail /\
     forallb is_ws lead = true /\ forallb is_ws trail = true) /\
  leading_ws (trim s) = false /\
  trailing_ws (trim s) = false /\
  trim (trim s) = trim s.
Proof.
  split; [apply trim_parts|].
  split; [apply trim_leading|].
  split; [apply trim_trailing | apply trim_idempotent].
Qed.

End TrimShape.

(** ** The tokens of a line *)

Section TokenShape.

Lemma leading_ws_app (l m : jsstring) :
  l <> [] -> leading_ws (l ++ m) = leading_ws l.
Proof. destruct l; [congruence | reflexivity]. Qed.

Lemma trailing_ws_rev (t : jsstring) : trailing_ws (rev t) = leading_ws t.
Proof. unfold trailing_ws. now rewrite rev_involutive. Qed.

Lemma trailing_ws_cons (c : code_unit) (t : jsstring) :
  t <> [] -> trailing_ws (c :: t) = trailing_ws t.
Proof.
  intros H. unfold trailing_ws. simpl rev. apply leading_ws_app.
  intros E. apply (f_equal (@rev code_unit)) in E.
  rewrite rev_involutive in E. contradiction.
Qed.

Lemma trailing_ws_tail (c : code_unit) (t : jsstring) :
  trailing_ws (c :: t) = false -> trailing_ws t = false.
Proof.
  destruct t as [|a t]; [reflexivity|].
  now rewrite trailing_ws_cons by discriminate.
Qed.

Lemma has_ws_run_cons (c : code_unit) (r : jsstring) :
  has_ws_run (c :: r) = (is_ws c && leading_ws r) || has_ws_run r.
Proof.
  destruct r as [|c2 r]; [simpl; now rewrite andb_false_r | reflexivity].
Qed.

Lemma has_ws_run_app (a b : jsstring) :
  has_ws_run (a ++ b) =
  has_ws_run a || has_ws_run b || (trailing_ws a && leading_ws b).
Proof.
  induction a as [|x a IH]; [simpl; now rewrite orb_false_r|].
  change ((x :: a) ++ b) with (x :: (a ++ b)).
  rewrite !has_ws_run_cons, IH.
  destruct a as [|y a].
  - unfold trailing_ws. simpl.
    destruct (is_ws x), (leading_ws b), (has_ws_run b); reflexivity.
  - rewrite (trailing_ws_cons x) by discriminate.
    rewrite leading_ws_app by discriminate.
    destruct (is_ws x), (leading_ws (y :: a)), (has_ws_run (y :: a)),
      (has_ws_run b), (trailing_ws (y :: a)), (leading_ws b); reflexivity.
Qed.

Lemma has_ws_run_rev (t : jsstring) : has_ws_run (rev t) = has_ws_run t.
Proof.
  induction t as [|x t IH]; [reflexivity|].
  simpl rev.
  rewrite has_ws_run_app, IH, trailing_ws_rev, (has_ws_run_cons x t).
  change (has_ws_run [x]) with false.
  change (leading_ws [x]) with (is_ws x).
  destruct (is_ws x), (leading_ws t), (has_ws_run t); reflexivity.
Qed.

Lemma has_tab_app (a b : jsstring) :
  has_tab (a ++ b) = has_tab a || has_tab b.
Proof. apply existsb_app. Qed.

Lemma has_tab_rev (t : jsstring) : has_tab (rev t) = has_tab t.
Proof.
  induction t as [|x t IH]; [reflexivity|].
  simpl rev. rewrite has_tab_app, IH.
  change (has_tab (x :: t)) with ((TAB =? x)%N || has_tab t).
  change (has_tab [x]) with ((TAB =? x)%N || false).
  rewrite orb_false_r. apply orb_comm.
Qed.

Lemma test_rev (t : jsstring) : Separator.test (rev t) = Separator.test t.
Proof. now rewrite !test_spec, has_tab_rev, has_ws_run_rev. Qed.

(** A match of the separator starts with white space and is not empty. *)
Lemma match_at_some (c : code_unit) (s : jsstring) (n : nat) :
  Separator.match_at (c :: s) = Some n ->
  is_ws c = true /\ exists k, n = S k /\ k <= Separator.ws_run s.
Proof.
  unfold Separator.match_at.
  destruct (N.eqb_spec c TAB) as [->|_].
  - intros E. injection E as <-. split; [reflexivity|].
    exists 0. split; [reflexivity | lia].
  - destruct (2 <=? Separator.ws_run (c :: s)) eqn:E2; [|discriminate].
    intros E. injection E as <-. apply Nat.leb_le in E2.
    simpl in *. destruct (is_ws c); [|lia].
    split; [reflexivity|]. exists (Separator.ws_run s). split; [reflexivity|lia].
Qed.

Lemma ws_run_cons_le (k : nat) (c : code_unit) (s : jsstring) :
  S k <= Separator.ws_run (c :: s) ->
  is_ws c = true /\ k <= Separator.ws_run s.
Proof. simpl. destruct (is_ws c); [split; [reflexivity|lia] | lia]. Qed.

Lemma split_from_clean (s : jsstring) :
  forall skip tok,
    (skip <> 0 -> tok = []) ->
    Separator.test tok = false ->
    leading_ws tok && leading_ws s = false ->
    trailing_ws s = false ->
    (s = [] -> leading_ws tok = false) ->
    Forall token_ok (Separator.split_from skip tok s).
Proof.
  induction s as [|c s IH]; intros skip tok Hskip Htok Hadj Hend Hlast.
  - simpl. constructor; [|constructor]. split.
    + now rewrite test_rev.
    + rewrite trailing_ws_rev. now apply Hlast.
  - assert (Hend' : trailing_ws s = false) by (eapply trailing_ws_tail; eauto).
    assert (Hfresh : forall k, Forall token_ok (Separator.split_from k [] s)).
    { intros k. apply IH; auto. }
    destruct skip as [|k].
    + change (Separator.split_from 0 tok (c :: s))
        with (match Separator.match_at (c :: s) with
              | Some (S n) => rev tok :: Separator.split_from n [] s
              | _ => Separator.split_from 0 (c :: tok) s
              end).
      destruct (Separator.match_at (c :: s)) as [n|] eqn:Em.
      * apply match_at_some in Em as [Hc [k [-> _]]].
        constructor; [|apply Hfresh]. split.
        -- now rewrite test_rev.
        -- rewrite trailing_ws_rev. simpl in Hadj. rewrite Hc in Hadj.
           now rewrite andb_true_r in Hadj.
      * apply match_at_cons in Em as [Et Ew].
        apply IH; auto.
        -- congruence.
        -- rewrite test_spec in *. apply orb_false_iff in Htok as [Ht Hr].
           change (has_tab (c :: tok)) with ((TAB =? c)%N || has_tab tok).
           rewrite has_ws_run_cons, (N.eqb_sym TAB c), Et, Ht, Hr.
           simpl in Hadj. rewrite andb_comm in Hadj. now rewrite Hadj.
        -- intros ->. simpl. unfold trailing_ws in Hend. simpl in Hend.
           exact Hend.
    + rewrite (Hskip ltac:(discriminate)). apply Hfresh.
Qed.

Lemma tokenize_ok (line tok : jsstring) :
  In tok (tokenize line) -> token_ok tok.
Proof.
  revert tok. apply Forall_forall.
  unfold tokenize, Separator.split. apply split_from_clean; auto.
  apply trim_trailing.
Qed.

(** X2. No token of a line holds a separator or ends with white space:
    a token holds no tab and no two white-space characters in a row.
    (A token may start with one white-space character, the one after a
    tab.) *)
Theorem tokens_hold_no_separator (line tok : jsstring) :
  In tok (tokenize line) ->
  has_tab tok = false /\ has_ws_run tok = false /\ trailing_ws tok = false.
Proof.
  intros Hin. destruct (tokenize_ok line tok Hin) as [Ht He].
  rewrite test_spec in Ht. apply orb_false_iff in Ht as [H1 H2]. auto.
Qed.

Lemma tokens_hold_no_separator_witness :
  In (u " b c") (tokenize (u "  a" ++ [TAB] ++ u " b c   d ")) /\
  has_tab (u " b c") = false /\ has_ws_run (u " b c") = false /\
  trailing_ws (u " b c") = false.
Proof.
  assert (H : In (u " b c") (tokenize (u "  a" ++ [TAB] ++ u " b c   d ")))
    by (vm_compute; right; left; reflexivity).
  split; [exact H|].
  exact (tokens_hold_no_separator _ _ H).
Defined.

Lemma filter_ws_cons (c : code_unit) (s : jsstring) :
  is_ws c = true -> filter non_ws (c :: s) = filter non_ws s.
Proof. intros Hc. simpl. unfold non_ws at 1. now rewrite Hc. Qed.

Lemma filter_non_ws_dropws (s : jsstring) :
  filter non_ws (dropws s) = filter non_ws s.
Proof.
  induction s as [|c s IH]; [reflexivity|].
  change (dropws (c :: s)) with (if is_ws c then dropws s else c :: s).
  destruct (is_ws c) eqn:Ec; [|reflexivity].
  rewrite IH. rewrite (filter_ws_cons c s Ec). reflexivity.
Qed.

Lemma filter_non_ws_trim (s : jsstring) :
  filter non_ws (trim s) = filter non_ws s.
Proof.
  unfold trim.
  rewrite filter_rev, filter_non_ws_dropws, <- filter_rev, rev_involutive.
  apply filter_non_ws_dropws.
Qed.

Lemma split_from_non_ws (s : jsstring) :
  forall skip tok,
    skip <= Separator.ws_run s ->
    filter non_ws (concat (Separator.split_from skip tok s)) =
    filter non_ws (rev tok ++ s).
Proof.
  induction s as [|c s IH]; intros skip tok Hskip.
  - simpl. now rewrite !app_nil_r.
  - destruct skip as [|k].
    + change (Separator.split_from 0 tok (c :: s))
        with (match Separator.match_at (c :: s) with
              | Some (S n) => rev tok :: Separator.split_from n [] s
              | _ => Separator.split_from 0 (c :: tok) s
              end).
      assert (Hkeep : filter non_ws
                        (concat (Separator.split_from 0 (c :: tok) s)) =
                      filter non_ws (rev tok ++ c :: s)).
      { rewrite IH by lia. simpl rev. now rewrite <- app_assoc. }
      destruct (Separator.match_at (c :: s)) as [[|n]|] eqn:Em;
        try exact Hkeep.
      apply match_at_some in Em as [Hc [k [E Hk]]]. injection E as ->.
      simpl concat. rewrite !filter_app, (IH k []) by exact Hk.
      now rewrite (filter_ws_cons c s Hc).
    + apply ws_run_cons_le in Hskip as [Hc Hk].
      change (Separator.split_from (S k) tok (c :: s))
        with (Separator.split_from k tok s).
      rewrite IH by exact Hk. rewrite !filter_app.
      now rewrite (filter_ws_cons c s Hc).
Qed.

(** X3. Tokenizing a line loses white space only: the characters of the
    tokens that are not white space, read in order, are those of the
    line. *)
Theorem tokenize_keeps_the_text (line : jsstring) :
  filter non_ws (concat (tokenize line)) = filter non_ws line.
Proof.
  unfold tokenize, Separator.split.
  rewrite split_from_non_ws by lia. simpl. apply filter_non_ws_trim.
Qed.

Lemma split_from_not_nil (s : jsstring) :
  forall skip tok, 1 <= length (Separator.split_from skip tok s).
Proof.
  induction s as [|c s IH]; intros skip tok; [simpl; lia|].
  destruct skip as [|k]; [|apply IH].
  change (Separator.split_from 0 tok (c :: s))
    with (match Separator.match_at (c :: s) with
          | Some (S n) => rev tok :: Separator.split_from n [] s
          | _ => Separator.split_from 0 (c :: tok) s
          end).
  destruct (Separator.match_at (c :: s)) as [[|n]|]; try apply IH.
  simpl. lia.
Qed.

Lemma split_from_match (s : jsstring) :
  forall tok, Separator.test s = true ->
  2 <= length (Separator.split_from 0 tok s).
Proof.
  induction s as [|c s IH]; intros tok Ht; [discriminate|].
  change (Separator.test (c :: s))
    with (match Separator.match_at (c :: s) with
          | Some _ => true
          | None => Separator.test s
          end) in Ht.
  change (Separator.split_from 0 tok (c :: s))
    with (match Separator.match_at (c :: s) with
          | Some (S n) => rev tok :: Separator.split_from n [] s
          | _ => Separator.split_from 0 (c :: tok) s
          end).
  destruct (Separator.match_at (c :: s)) as [n|] eqn:Em.
  - apply match_at_some in Em as [_ [k [-> _]]].
    pose proof (split_from_not_nil s k []). simpl. lia.
  - now apply IH.
Qed.

(** X4. A line gives two cells or more exactly when its trimmed text
    holds a tab or two white-space characters in a row; any other line
    gives the one cell that is its trimmed text.  No line gives no
    cell. *)
Theorem tokenize_cell_count (line : jsstring) :
  (has_tab (trim line) = true \/ has_ws_run (trim line) = true <->
   2 <= length (tokenize line)) /\
  (has_tab (trim line) = false /\ has_ws_run (trim line) = false <->
   tokenize line = [trim line]) /\
  1 <= length (tokenize line).
Proof.
  assert (Hsep : Separator.test (trim line) = true <->
                 2 <= length (tokenize line)).
  { split.
    - apply split_from_match.
    - intros Hlen. destruct (Separator.test (trim line)) eqn:E; auto.
      unfold tokenize in Hlen. rewrite split_no_match in Hlen by exact E.
      simpl in Hlen. lia. }
  assert (Hone : tokenize line = [trim line] ->
                 Separator.test (trim line) = false).
  { intros E. destruct (Separator.test (trim line)) eqn:Et; auto.
    apply (split_from_match (trim line) []) in Et.
    unfold tokenize, Separator.split in E. rewrite E in Et.
    simpl in Et. lia. }
  rewrite test_spec in Hsep, Hone. split; [|split].
  - rewrite <- Hsep. symmetry. apply orb_true_iff.
  - split.
    + intros [H1 H2]. unfold tokenize. apply split_no_match.
      now rewrite test_spec, H1, H2.
    + intros E. apply orb_false_iff. now apply Hone.
  - apply split_from_not_nil.
Qed.

(** The first token starts with the text read before it. *)
Lemma split_from_first (s : jsstring) :
  forall tok, exists rest more,
    Separator.split_from 0 tok s = (rev tok ++ rest) :: more.
Proof.
  induction s as [|c s IH]; intros tok.
  - exists [], []. simpl. now rewrite app_nil_r.
  - change (Separator.split_from 0 tok (c :: s))
      with (match Separator.match_at (c :: s) with
            | Some (S n) => rev tok :: Separator.split_from n [] s
            | _ => Separator.split_from 0 (c :: tok) s
            end).
    assert (Hkeep : exists rest more,
               Separator.split_from 0 (c :: tok) s =
               (rev tok ++ rest) :: more).
    { destruct (IH (c :: tok)) as [rest [more E]].
      exists (c :: rest), more. rewrite E. simpl rev.
      now rewrite <- app_assoc. }
    destruct (Separator.match_at (c :: s)) as [[|n]|]; try exact Hkeep.
    exists [], (Separator.split_from n [] s). now rewrite app_nil_r.
Qed.

(** The first cell of a line that is not blank is not empty and does not
    start with white space. *)
Lemma tokenize_first (line : jsstring) :
  trim line <> [] ->
  exists c rest more,
    tokenize line = (c :: rest) :: more /\ is_ws c = false.
Proof.
  intros Hne. pose proof (trim_leading line) as Hl.
  unfold tokenize, Separator.split.
  destruct (trim line) as [|c s]; [congruence|]. simpl in Hl.
  change (Separator.split_from 0 [] (c :: s))
    with (match Separator.match_at (c :: s) with
          | Some (S n) => rev [] :: Separator.split_from n [] s
          | _ => Separator.split_from 0 [c] s
          end).
  destruct (Separator.match_at (c :: s)) as [n|] eqn:Em.
  - apply match_at_some in Em as [Hc _]. congruence.
  - destruct (split_from_first s [c]) as [rest [more E]].
    exists c, rest, more. split; [exact E | exact Hl].
Qed.

End TokenShape.

(** ** The lines of a text *)

Section LineShape.

Lemma split_nl_from_not_nil (s cur : jsstring) : split_nl_from cur s <> [].
Proof.
  revert cur. induction s as [|c s IH]; intros cur; simpl; [discriminate|].
  destruct (c =? NL)%N; [discriminate | apply IH].
Qed.

Lemma concat_NL_unlines (ls : list jsstring) :
  ls <> [] -> concat (map (fun x => NL :: x) ls) = NL :: unlines ls.
Proof. destruct ls as [|l ls]; [congruence | reflexivity]. Qed.

Lemma unlines_split_nl_from (s cur : jsstring) :
  unlines (split_nl_from cur s) = rev cur ++ s.
Proof.
  revert cur. induction s as [|c s IH]; intros cur.
  - simpl. now rewrite app_nil_r.
  - simpl split_nl_from. destruct (N.eqb_spec c NL) as [->|_].
    + simpl unlines.
      rewrite concat_NL_unlines by apply split_nl_from_not_nil.
      now rewrite IH.
    + rewrite IH. simpl rev. now rewrite <- app_assoc.
Qed.

Lemma split_nl_from_nl_free (s cur : jsstring) :
  nl_free cur = true -> forallb nl_free (split_nl_from cur s) = true.
Proof.
  revert cur. induction s as [|c s IH]; intros cur Hcur.
  - simpl. unfold nl_free in *. now rewrite forallb_rev, Hcur.
  - simpl split_nl_from. destruct (c =? NL)%N eqn:Ec.
    + simpl. rewrite IH by reflexivity.
      unfold nl_free in *. now rewrite forallb_rev, Hcur.
    + apply IH. unfold nl_free in *. simpl. now rewrite Ec, Hcur.
Qed.

Lemma split_nl_from_line (l : jsstring) :
  forall cur rest,
    nl_free l = true ->
    split_nl_from cur (l ++ rest) = split_nl_from (rev l ++ cur) rest.
Proof.
  induction l as [|c l IH]; intros cur rest Hl; [reflexivity|].
  unfold nl_free in Hl. simpl in Hl. apply andb_true_iff in Hl as [Hc Hl].
  apply negb_true_iff in Hc. simpl app. simpl split_nl_from. rewrite Hc.
  rewrite IH by exact Hl. simpl rev. now rewrite <- app_assoc.
Qed.

Lemma split_nl_from_lines (ls : list jsstring) :
  forall l cur,
    nl_free l = true -> forallb nl_free ls = true ->
    split_nl_from cur (l ++ concat (map (fun x => NL :: x) ls)) =
    (rev cur ++ l) :: ls.
Proof.
  induction ls as [|l' ls IH]; intros l cur Hl Hls.
  - simpl. rewrite split_nl_from_line by exact Hl. simpl.
    now rewrite rev_app_distr, rev_involutive.
  - simpl in Hls. apply andb_true_iff in Hls as [Hl' Hls].
    rewrite split_nl_from_line by exact Hl.
    simpl concat. simpl split_nl_from.
    rewrite (IH l' [] Hl' Hls). simpl.
    now rewrite rev_app_distr, rev_involutive.
Qed.

Lemma split_nl_unlines (ls : list jsstring) :
  ls <> [] -> forallb nl_free ls = true -> split_nl (unlines ls) = ls.
Proof.
  destruct ls as [|l ls]; [congruence|]. intros _ H. simpl in H.
  apply andb_true_iff in H as [Hl Hls].
  unfold split_nl, unlines. now rewrite split_nl_from_lines.
Qed.

(** X5. [text.split('\n')] cuts a text at its line feeds and nowhere
    else: joining the lines with line feeds gives the text back, there
    is at least one line, no line holds a line feed, and the lines of
    such a joined text are the lines that were joined. *)
Theorem split_nl_cuts_at_line_feeds :
  (forall text,
     unlines (split_nl text) = text /\
     split_nl text <> [] /\
     forallb nl_free (split_nl text) = true) /\
  (forall ls,
     ls <> [] -> forallb nl_free ls = true -> split_nl (unlines ls) = ls).
Proof.
  split.
  - intros text. unfold split_nl. split; [|split].
    + apply unlines_split_nl_from.
    + apply split_nl_from_not_nil.
    + now apply split_nl_from_nl_free.
  - apply split_nl_unlines.
Qed.

Lemma split_nl_cuts_at_line_feeds_witness :
  split_nl (unlines [u "a b"; []; u "c"]) = [u "a b"; []; u "c"].
Proof.
  apply (proj2 split_nl_cuts_at_line_feeds [u "a b"; []; u "c"]).
  - discriminate.
  - reflexivity.
Defined.

Lemma candidate_lines_unlines (ls : list jsstring) :
  forallb nl_free ls = true ->
  candidate_lines (unlines ls) = filter is_candidate ls.
Proof.
  intros H. unfold candidate_lines. destruct ls as [|l ls]; [reflexivity|].
  now rewrite split_nl_unlines.
Qed.

(** A line of a text is a part of the text. *)
Lemma split_nl_from_part (s : jsstring) :
  forall cur l, In l (split_nl_from cur s) ->
  exists a b, rev cur ++ s = a ++ l ++ b.
Proof.
  induction s as [|c s IH]; intros cur l Hin.
  - simpl in Hin. destruct Hin as [<-|[]]. exists [], [].
    now rewrite !app_nil_r.
  - simpl split_nl_from in Hin. destruct (c =? NL)%N.
    + destruct Hin as [<-|Hin].
      * exists [], (c :: s). reflexivity.
      * destruct (IH [] l Hin) as [a [b E]]. simpl in E.
        exists (rev cur ++ c :: a), b. rewrite E.
        now rewrite <- app_assoc.
    + destruct (IH (c :: cur) l Hin) as [a [b E]].
      exists a, b. rewrite <- E. simpl rev. now rewrite <- app_assoc.
Qed.

Lemma test_part (a l b : jsstring) :
  Separator.test l = true -> Separator.test (a ++ l ++ b) = true.
Proof.
  rewrite !test_spec, !has_tab_app, !has_ws_run_app.
  intros H. apply orb_true_iff in H as [-> | ->];
    rewrite ?orb_true_r; reflexivity.
Qed.

End LineShape.

(** ** The shape of a returned table *)

Section TableShape.

Lemma split_from_incl (s : jsstring) :
  forall skip tok t,
    In t (Separator.split_from skip tok s) -> incl t (rev tok ++ s).
Proof.
  induction s as [|c s IH]; intros skip tok t Hin.
  - simpl in Hin. destruct Hin as [<-|[]]. now rewrite app_nil_r.
  - assert (Hrest : forall k, In t (Separator.split_from k [] s) ->
                      incl t (rev tok ++ c :: s)).
    { intros k Hk. apply IH in Hk. simpl in Hk.
      intros x Hx. apply in_or_app. right. right. now apply Hk. }
    assert (Hkeep : In t (Separator.split_from 0 (c :: tok) s) ->
                    incl t (rev tok ++ c :: s)).
    { intros Hk. apply IH in Hk. simpl rev in Hk.
      now rewrite <- app_assoc in Hk. }
    destruct skip as [|k].
    + change (Separator.split_from 0 tok (c :: s))
        with (match Separator.match_at (c :: s) with
              | Some (S n) => rev tok :: Separator.split_from n [] s
              | _ => Separator.split_from 0 (c :: tok) s
              end) in Hin.
      destruct (Separator.match_at (c :: s)) as [[|n]|]; auto.
      destruct Hin as [<-|Hin]; [|eauto].
      intros x Hx. apply in_or_app. now left.
    + change (Separator.split_from (S k) tok (c :: s))
        with (Separator.split_from k tok s) in Hin.
      apply IH in Hin. intros x Hx. apply Hin in Hx.
      apply in_app_or in Hx as [Hx|Hx]; apply in_or_app; [now left|].
      right. now right.
Qed.

Lemma trim_incl (s : jsstring) : incl (trim s) s.
Proof.
  destruct (trim_parts s) as [lead [trail [E _]]].
  intros x Hx. rewrite E. apply in_or_app. right.
  apply in_or_app. now left.
Qed.

Lemma tokenize_incl (line tok : jsstring) :
  In tok (tokenize line) -> incl tok line.
Proof.
  intros Hin. apply split_from_incl in Hin. simpl in Hin.
  intros x Hx. now apply trim_incl, Hin.
Qed.

Lemma nl_free_incl (t l : jsstring) :
  incl t l -> nl_free l = true -> nl_free t = true.
Proof.
  unfold nl_free. rewrite !forallb_forall. intros Hi Hl x Hx. auto.
Qed.

Lemma candidate_line_facts (text line : jsstring) :
  In line (candidate_lines text) ->
  is_candidate line = true /\ trim line <> [] /\ nl_free line = true /\
  exists a b, text = a ++ line ++ b.
Proof.
  intros Hin. apply filter_In in Hin as [Hin Hc].
  split; [exact Hc|]. split; [now apply is_candidate_spec in Hc|]. split.
  - pose proof (split_nl_from_nl_free text [] eq_refl) as Hall.
    rewrite forallb_forall in Hall. now apply Hall.
  - apply split_nl_from_part in Hin. exact Hin.
Qed.

Lemma trim_token_ok (tok : jsstring) :
  Separator.test tok = false ->
  has_tab (trim tok) = false /\ has_ws_run (trim tok) = false.
Proof.
  intros Ht. destruct (trim_parts tok) as [lead [trail [E _]]].
  destruct (Separator.test (trim tok)) eqn:Et.
  - apply (test_part lead (trim tok) trail) in Et. rewrite <- E in Et.
    congruence.
  - rewrite test_spec in Et. now apply orb_false_iff in Et.
Qed.

(** X6. A returned table has at least one header; its first header is
    not empty and does not start with white space; and it has fewer rows
    than the text has candidate lines, of which there are two or
    more. *)
Theorem returned_table_has_a_first_header (text : jsstring) (t : Table) :
  extractTable_text text = Ok t ->
  (exists c rest more,
     headers t = (c :: rest) :: more /\ is_ws c = false) /\
  2 <= length (candidate_lines text) /\
  length (values t) < length (candidate_lines text).
Proof.
  intros H. apply extractTable_text_ok in H as [Hn [Hh Hv]].
  split; [|split; [exact Hn|]].
  - rewrite Hh. destruct (candidate_lines text) as [|l ls] eqn:El;
      [simpl in Hn; lia|].
    assert (Hin : In l (candidate_lines text)) by (rewrite El; now left).
    apply candidate_line_facts in Hin as [_ [Hne _]].
    simpl. now apply tokenize_first.
  - rewrite Hv, length_map. unfold kept_rows.
    eapply Nat.le_lt_trans; [apply filter_length_le|].
    rewrite tl_map, length_map.
    destruct (candidate_lines text); simpl in *; lia.
Qed.

Lemma returned_table_has_a_first_header_witness :
  exists c rest more,
    headers (mkTable [u "a"; u "b"] []) = (c :: rest) :: more /\
    is_ws c = false.
Proof.
  apply (returned_table_has_a_first_header ragged_text
           (mkTable [u "a"; u "b"] [])).
  vm_compute. reflexivity.
Defined.

(** X7. In a returned table no header and no string cell holds a tab, a
    line feed or two white-space characters in a row, or ends with white
    space; a string cell does not start with white space either. *)
Theorem returned_table_texts_are_clean (text : jsstring) (t : Table) :
  extractTable_text text = Ok t ->
  (forall h, In h (headers t) ->
     has_tab h = false /\ has_ws_run h = false /\ nl_free h = true /\
     trailing_ws h = false) /\
  (forall row s, In row (values t) -> In (CStr s) row ->
     has_tab s = false /\ has_ws_run s = false /\ nl_free s = true /\
     trailing_ws s = false /\ leading_ws s = false).
Proof.
  intros H. apply extractTable_text_ok in H as [Hn [Hh Hv]].
  assert (Htok : forall line tok,
            In line (candidate_lines text) -> In tok (tokenize line) ->
            Separator.test tok = false /\ trailing_ws tok = false /\
            nl_free tok = true).
  { intros line tok Hl Htk.
    destruct (tokenize_ok line tok Htk) as [H1 H2].
    apply candidate_line_facts in Hl as [_ [_ [Hnl _]]].
    repeat split; auto.
    eapply nl_free_incl; [|exact Hnl]. now apply tokenize_incl. }
  split.
  - intros h Hin. rewrite Hh in Hin.
    destruct (candidate_lines text) as [|l ls] eqn:El; [destruct Hin|].
    simpl in Hin. destruct (Htok l h (or_introl eq_refl) Hin)
      as [H1 [H2 H3]].
    rewrite test_spec in H1. apply orb_false_iff in H1 as [H1 H1'].
    auto.
  - intros row s Hrow Hs. rewrite Hv in Hrow.
    apply in_map_iff in Hrow as [toks [<- Hk]].
    apply in_map_iff in Hs as [tok [Hc Htk]].
    unfold kept_rows in Hk. apply filter_In in Hk as [Hk _].
    rewrite tl_map in Hk. apply in_map_iff in Hk as [line [<- Hl]].
    assert (Hl' : In line (candidate_lines text)).
    { destruct (candidate_lines text); [destruct Hl | now right]. }
    destruct (Htok line tok Hl' Htk) as [H1 [_ H3]].
    destruct (coerce_string_trimmed tok s Hc) as [H4 H5].
    unfold coerce in Hc.
    destruct (negb (isNaN (StringToNumber (trim tok))) &&
              negb (jsstring_eqb (trim tok) [])); [discriminate|].
    injection Hc as <-.
    destruct (trim_token_ok tok H1) as [H6 H7].
    repeat split; auto.
    eapply nl_free_incl; [apply trim_incl | exact H3].
Qed.

Lemma returned_table_texts_are_clean_witness :
  has_tab (u " b") = false /\ has_ws_run (u " b") = false /\
  nl_free (u " b") = true /\ trailing_ws (u " b") = false.
Proof.
  apply (proj1 (returned_table_texts_are_clean spaced_header_text
                  (mkTable [u "a"; u " b"] [[CStr (u "c"); CStr (u "d")]])
                  ltac:(vm_compute; reflexivity))
           (u " b")).
  right. left. reflexivity.
Defined.

(** X8. A text none of whose lines holds a tab or two white-space
    characters in a row has no candidate line: extraction throws the
    error for want of tabular data, however many lines the text has. *)
Theorem single_spaced_text_has_no_table (text : jsstring) :
  forallb (fun l => negb (has_tab l) && negb (has_ws_run l)) (split_nl text)
    = true ->
  candidate_lines text = [] /\
  extractTable_text text = Throw NoTabularDataError.
Proof.
  intros Hall. rewrite forallb_forall in Hall.
  assert (Hnone : candidate_lines text = []).
  { destruct (candidate_lines text) as [|l ls] eqn:El; [reflexivity|].
    assert (Hin : In l (candidate_lines text)) by (rewrite El; now left).
    apply filter_In in Hin as [Hin Hc].
    apply is_candidate_spec in Hc as [_ Hc]. apply Hall in Hin.
    apply andb_true_iff in Hin as [H1 H2].
    apply negb_true_iff in H1, H2. destruct Hc; congruence. }
  split; [exact Hnone|].
  apply extractTable_text_few. rewrite Hnone. simpl. lia.
Qed.

Lemma single_spaced_text_has_no_table_witness :
  extractTable_text
    (unlines [u "Name Score"; u "Alice 90"; []; u " Bob 85 "]) =
  Throw NoTabularDataError.
Proof.
  apply (single_spaced_text_has_no_table
           (unlines [u "Name Score"; u "Alice 90"; []; u " Bob 85 "])).
  vm_compute. reflexivity.
Defined.

Lemma filter_app_cons {A : Type} (f : A -> bool) (pre post : list A)
    (x : A) :
  filter f (pre ++ x :: post) =
  filter f pre ++ (if f x then [x] else []) ++ filter f post.
Proof.
  rewrite filter_app. simpl. now destruct (f x).
Qed.

Lemma forallb_app_cons {A : Type} (f : A -> bool) (pre post : list A)
    (x : A) :
  forallb f (pre ++ x :: post) = true -> forallb f (pre ++ post) = true.
Proof.
  rewrite !forallb_app. simpl. intros H.
  apply andb_true_iff in H as [H1 H2]. apply andb_true_iff in H2 as [_ H2].
  now rewrite H1, H2.
Qed.

(** X9. A line that is no candidate has no effect: the text with the
    line and the text without it give the same table, or the same
    error. *)
Theorem other_lines_are_ignored (pre post : list jsstring) (l : jsstring) :
  forallb nl_free (pre ++ l :: post) = true ->
  is_candidate l = false ->
  extractTable_text (unlines (pre ++ l :: post)) =
  extractTable_text (unlines (pre ++ post)).
Proof.
  intros Hnl Hl. unfold extractTable_text.
  rewrite (candidate_lines_unlines _ Hnl).
  rewrite (candidate_lines_unlines _ (forallb_app_cons _ _ _ _ Hnl)).
  now rewrite filter_app_cons, Hl, filter_app.
Qed.

Lemma other_lines_are_ignored_witness :
  extractTable_text
    (unlines [u "Scores of the term"; u "Name   Score"; u "(continued)";
              u "Alice   90"]) =
  extractTable_text (unlines [u "Scores of the term"; u "Name   Score";
                              u "Alice   90"]).
Proof.
  apply (other_lines_are_ignored [u "Scores of the term"; u "Name   Score"]
           [u "Alice   90"] (u "(continued)")); reflexivity.
Defined.

(** X10. A candidate line after the header whose token count is not the
    header's has no effect on the table, as long as two candidate lines
    are left without it: the text with the line and the text without it
    give the same table. *)
Theorem ragged_line_is_ignored
    (pre post : list jsstring) (l h : jsstring) :
  forallb nl_free (pre ++ l :: post) = true ->
  hd_error (filter is_candidate pre) = Some h ->
  length (tokenize l) <> length (tokenize h) ->
  2 <= length (filter is_candidate (pre ++ post)) ->
  extractTable_text (unlines (pre ++ l :: post)) =
  extractTable_text (unlines (pre ++ post)).
Proof.
  intros Hnl Hh Hlen Htwo.
  rewrite (extractTable_text_enough (unlines (pre ++ post)))
    by (rewrite (candidate_lines_unlines _
                   (forallb_app_cons _ _ _ _ Hnl)); exact Htwo).
  rewrite (extractTable_text_enough (unlines (pre ++ l :: post))).
  2:{ rewrite (candidate_lines_unlines _ Hnl), filter_app_cons.
      rewrite filter_app in Htwo. rewrite !length_app in *. lia. }
  rewrite (candidate_lines_unlines _ Hnl).
  rewrite (candidate_lines_unlines _ (forallb_app_cons _ _ _ _ Hnl)).
  rewrite filter_app_cons, filter_app.
  destruct (filter is_candidate pre) as [|h' cs]; [discriminate|].
  injection Hh as ->. simpl hd. do 2 f_equal.
  unfold kept_rows. simpl tl. rewrite !map_app, !filter_app.
  do 2 f_equal. destruct (is_candidate l); [|reflexivity].
  simpl. apply Nat.eqb_neq in Hlen. now rewrite Hlen.
Qed.

Lemma ragged_line_is_ignored_witness :
  extractTable_text
    (unlines [u "Name   Score"; u "Alice   90"; u "x  y  z"; u "Bob  85"]) =
  extractTable_text (unlines [u "Name   Score"; u "Alice   90"; u "Bob  85"]).
Proof.
  apply (ragged_line_is_ignored [u "Name   Score"; u "Alice   90"]
           [u "Bob  85"] (u "x  y  z") (u "Name   Score")).
  - reflexivity.
  - reflexivity.
  - vm_compute. discriminate.
  - vm_compute. lia.
Defined.

End TableShape.

(** ** The text of a number cell, and the headers in the output *)

Section RenderShape.

Lemma string_of_uint_digits (d : Decimal.uint) :
  forallb is_decimal_digit (u (NilEmpty.string_of_uint d)) = true.
Proof. induction d; simpl; auto. Qed.

Lemma digits_of_N_digits (n : N) :
  forallb is_decimal_digit (digits_of_N n) = true.
Proof. apply string_of_uint_digits. Qed.

Lemma forallb_weaken {A : Type} (f g : A -> bool) (l : list A) :
  (forall x, f x = true -> g x = true) ->
  forallb f l = true -> forallb g l = true.
Proof.
  intros Hfg. rewrite !forallb_forall. auto.
Qed.

Lemma digits_number_chars (l : jsstring) :
  forallb is_decimal_digit l = true -> forallb number_char l = true.
Proof.
  apply forallb_weaken. intros x Hx. unfold number_char. now rewrite Hx.
Qed.

Lemma forallb_firstn_skipn {A : Type} (f : A -> bool) (n : nat)
    (l : list A) :
  forallb f l = true ->
  forallb f (firstn n l) = true /\ forallb f (skipn n l) = true.
Proof.
  intros H. rewrite <- (firstn_skipn n l), forallb_app in H.
  now apply andb_true_iff in H.
Qed.

Lemma forallb_repeat {A : Type} (f : A -> bool) (x : A) (n : nat) :
  f x = true -> forallb f (repeat x n) = true.
Proof. intros H. induction n; simpl; [reflexivity | now rewrite H]. Qed.

Lemma exponent_number_chars (n : Z) :
  forallb number_char
    (u "e" ++ (if (n <? 0)%Z then u "-" else u "+") ++
     digits_of_N (Z.abs_N n)) = true.
Proof.
  rewrite !forallb_app.
  rewrite (digits_number_chars _ (digits_of_N_digits _)).
  now destruct (n <? 0)%Z.
Qed.

Ltac split_forallb :=
  rewrite forallb_app; apply andb_true_iff; split.

Lemma NumberToString_number_chars (x : Number) :
  forallb number_char (NumberToString x) = true.
Proof.
  destruct x as [|neg|neg m0 e0].
  - reflexivity.
  - destruct neg; reflexivity.
  - unfold NumberToString.
    destruct (strip_zeros _ m0 e0) as [m e].
    destruct (m =? 0)%N; [reflexivity|].
    pose proof (digits_number_chars _ (digits_of_N_digits m)) as Hds.
    destruct (forallb_firstn_skipn number_char
                (Z.to_nat (Z.of_nat (length (digits_of_N m)) + e))
                (digits_of_N m) Hds) as [Hf Hs].
    split_forallb; [now destruct neg|].
    destruct (_ && _)%bool.
    { split_forallb; [exact Hds | now apply forallb_repeat]. }
    destruct (_ && _)%bool.
    { split_forallb; [exact Hf|]. split_forallb; [reflexivity | exact Hs]. }
    destruct (_ && _)%bool.
    { split_forallb; [reflexivity|].
      split_forallb; [now apply forallb_repeat | exact Hds]. }
    clear Hf Hs.
    destruct (digits_of_N m) as [|d [|d' rest]].
    + apply exponent_number_chars.
    + split_forallb; [exact Hds | apply exponent_number_chars].
    + simpl in Hds. apply andb_true_iff in Hds as [Hd Hrest].
      split_forallb; [simpl; now rewrite Hd|].
      split_forallb; [reflexivity|].
      split_forallb; [exact Hrest | apply exponent_number_chars].
Qed.

Lemma number_char_plain (c : code_unit) :
  number_char c = true -> markup_char c = false /\ is_ws c = false.
Proof.
  unfold number_char, is_decimal_digit.
  intros H. apply orb_true_iff in H as [H|H].
  - apply andb_true_iff in H as [H1 H2].
    apply N.leb_le in H1, H2.
    unfold markup_char, is_ws.
    repeat match goal with
           | |- context [(c =? ?k)%N] =>
               destruct (N.eqb_spec c k); [lia|]
           end.
    split; [reflexivity|].
    destruct (N.leb_spec 8192 c); [lia | reflexivity].
  - apply existsb_exists in H as [k [Hk E]]. apply N.eqb_eq in E. subst k.
    simpl in Hk.
    repeat (destruct Hk as [<-|Hk]; [split; reflexivity|]).
    destruct Hk.
Qed.

(** X11. The text of a number cell is made of digits, a point, a sign,
    [e] and the letters of [Infinity] and [NaN] only: it holds no angle
    bracket, no ampersand and no white space.  Markup in the output can
    come from a header or a string cell only. *)
Theorem number_cell_text_is_plain (x : Number) (c : code_unit) :
  In c (cell_text (CNum x)) ->
  number_char c = true /\ markup_char c = false /\ is_ws c = false.
Proof.
  intros Hin. pose proof (NumberToString_number_chars x) as Hall.
  rewrite forallb_forall in Hall. simpl in Hin. apply Hall in Hin.
  split; [exact Hin | now apply number_char_plain].
Qed.

Lemma number_cell_text_is_plain_witness :
  number_char 46%N = true /\ markup_char 46%N = false /\ is_ws 46%N = false.
Proof.
  apply (number_cell_text_is_plain (Finite true 125 (-2)) 46%N).
  vm_compute. right. right. left. reflexivity.
Defined.

(** X12. Headers are not escaped either: for every table, each header
    is in the output as it is, between the opening and the closing tag
    of a header cell. *)
Theorem generateHTML_headers_verbatim
    (hs : list jsstring) (vs : list (list Cell)) (h : jsstring) :
  In h hs ->
  occurs (u "<th>" ++ h ++ u "</th>") (generateHTML hs vs) = true.
Proof.
  intros Hh. unfold generateHTML.
  apply occurs_after, occurs_before.
  apply occurs_tr with (part := th h).
  - now apply in_map.
  - apply occurs_refl.
Qed.

Lemma generateHTML_headers_verbatim_witness :
  occurs (u "<th>" ++ u "<b>Name" ++ u "</th>")
    (generateHTML [u "<b>Name"; u "Score"] []) = true.
Proof.
  apply (generateHTML_headers_verbatim [u "<b>Name"; u "Score"] []
           (u "<b>Name")).
  left. reflexivity.
Defined.

End RenderShape.

(** ** The outcomes of the pipeline *)

Section PipelineOutcomes.

Context {World : Type} `{Storage World}.
Variable pdfParse : Buffer -> result jsstring.
Variable path_join : jsstring -> jsstring -> jsstring.
Variable path_basename : jsstring -> jsstring -> jsstring.
Variable dirname : jsstring.

Lemma extractTable_steps (filePath : jsstring) (w : World) :
  extractTable pdfParse filePath w =
  match readFile filePath w with
  | Ok buffer =>
      match pdfParse buffer with
      | Ok text => (extractTable_text text, w)
      | Throw e => (Throw e, w)
      end
  | Throw e => (Throw e, w)
  end.
Proof.
  unfold extractTable, read_text, bind, lift.
  destruct (readFile filePath w) as [buffer|e]; [|reflexivity].
  destruct (pdfParse buffer); reflexivity.
Qed.

Lemma saveHTMLToFile_steps (html filename : jsstring) (w : World) :
  saveHTMLToFile path_join dirname html filename w =
  match mkdir_recursive (dashboardDir path_join dirname) w with
  | (Ok _, w1) =>
      match writeFile (path_join (dashboardDir path_join dirname) (filename ++ u ".html"))
              html w1 with
      | (Ok _, w2) =>
          (Ok (path_join (dashboardDir path_join dirname) (filename ++ u ".html")), w2)
      | (Throw e, w2) => (Throw e, w2)
      end
  | (Throw e, w1) => (Throw e, w1)
  end.
Proof.
  unfold saveHTMLToFile, bind, ret.
  change (path_join dirname (u "../dashboards")) with (dashboardDir path_join dirname).
  destruct (mkdir_recursive (dashboardDir path_join dirname) w) as [[[]|e] w1]; [|reflexivity].
  destruct (writeFile _ html w1) as [[[]|e] w2]; reflexivity.
Qed.

(** X13. The pipeline returns a path exactly when every step succeeds:
    the document is read, its text is parsed out, the text gives a
    table, the directory is made and the report is written.  The path
    returned is the one written to, the name of the document with
    [.html] under the directory of the dashboards; what is written is
    the HTML of the whole table; and the storage ends in the state the
    write left. *)
Theorem pdfTableToHTMLDashboard_success
    (filePath p : jsstring) (w w' : World) :
  pdfTableToHTMLDashboard pdfParse path_join path_basename dirname
    filePath w = (Ok p, w') <->
  exists buffer text t w1,
    readFile filePath w = Ok buffer /\
    pdfParse buffer = Ok text /\
    extractTable_text text = Ok t /\
    mkdir_recursive (dashboardDir path_join dirname) w = (Ok tt, w1) /\
    writeFile (outputPath path_join path_basename dirname filePath) (generateHTML (headers t) (values t)) w1
      = (Ok tt, w') /\
    p = outputPath path_join path_basename dirname filePath.
Proof.
  rewrite pdfTableToHTMLDashboard_steps, extractTable_steps.
  unfold Paths.outputPath. split.
  - destruct (readFile filePath w) as [buffer|e] eqn:Er; [|discriminate].
    destruct (pdfParse buffer) as [text|e] eqn:Ep; [|discriminate].
    destruct (extractTable_text text) as [t|e] eqn:Et; [|discriminate].
    rewrite saveHTMLToFile_steps.
    destruct (mkdir_recursive (dashboardDir path_join dirname) w)
      as [[[]|e] w1] eqn:Em; [|discriminate].
    destruct (writeFile _ _ w1) as [[[]|e] w2] eqn:Ew; [|discriminate].
    intros E. injection E as <- <-.
    exists buffer, text, t, w1. repeat split; assumption || reflexivity.
  - intros [buffer [text [t [w1 [-> [-> [-> [Hm [Hw ->]]]]]]]]].
    rewrite saveHTMLToFile_steps, Hm, Hw. reflexivity.
Qed.

(** X14. The pipeline throws in five cases and no other, each with the
    error of the step that failed, unchanged: the document cannot be
    read, or not parsed, or its text gives no table (in these three the
    storage is left as it was), or the directory cannot be made (the
    storage is as that attempt left it, and nothing is written), or the
    report cannot be written. *)
Theorem pdfTableToHTMLDashboard_failure
    (filePath : jsstring) (e : JSError) (w w' : World) :
  pdfTableToHTMLDashboard pdfParse path_join path_basename dirname
    filePath w = (Throw e, w') ->
  (readFile filePath w = Throw e /\ w' = w) \/
  (exists buffer,
     readFile filePath w = Ok buffer /\ pdfParse buffer = Throw e /\
     w' = w) \/
  (exists buffer text,
     readFile filePath w = Ok buffer /\ pdfParse buffer = Ok text /\
     extractTable_text text = Throw e /\ e = NoTabularDataError /\
     w' = w) \/
  (exists buffer text t,
     readFile filePath w = Ok buffer /\ pdfParse buffer = Ok text /\
     extractTable_text text = Ok t /\
     (mkdir_recursive (dashboardDir path_join dirname) w = (Throw e, w') \/
      exists w1,
        mkdir_recursive (dashboardDir path_join dirname) w = (Ok tt, w1) /\
        writeFile (outputPath path_join path_basename dirname filePath)
          (generateHTML (headers t) (values t)) w1 = (Throw e, w'))).
Proof.
  rewrite pdfTableToHTMLDashboard_steps, extractTable_steps.
  unfold Paths.outputPath.
  destruct (readFile filePath w) as [buffer|e1] eqn:Er.
  2:{ intros E. injection E as <- <-. now left. }
  destruct (pdfParse buffer) as [text|e1] eqn:Ep.
  2:{ intros E. injection E as <- <-. right. left. now exists buffer. }
  destruct (extractTable_text text) as [t|e1] eqn:Et.
  2:{ intros E. injection E as <- <-. right. right. left.
      exists buffer, text. repeat split; auto.
      destruct (extractTable_text_cases text) as [[_ E]|[_ [t [E _]]]];
        congruence. }
  rewrite saveHTMLToFile_steps. intros E. right. right. right.
  exists buffer, text, t. repeat split; auto.
  destruct (mkdir_recursive (dashboardDir path_join dirname) w)
    as [[[]|e1] w1].
  - right. exists w1. split; [reflexivity|].
    destruct (writeFile _ _ w1) as [[[]|e2] w2]; [discriminate|].
    now injection E as <- <-.
  - left. now injection E as <- <-.
Qed.

End PipelineOutcomes.

Lemma pdfTableToHTMLDashboard_success_witness :
  exists buffer text t w1,
    readFile (u "scores.pdf") scores_world = Ok buffer /\
    plain_pdfParse buffer = Ok text /\
    extractTable_text text = Ok t /\
    mkdir_recursive (dashboardDir slash_join (u "utils")) scores_world =
      (Ok tt, w1) /\
    writeFile
      (outputPath slash_join keep_basename (u "utils") (u "scores.pdf"))
      (generateHTML (headers t) (values t)) w1 =
      (Ok tt, snd (run_dashboard (u "scores.pdf") scores_world)) /\
    u "utils/../dashboards/scores.pdf.html" =
      outputPath slash_join keep_basename (u "utils") (u "scores.pdf").
Proof.
  apply (proj1 (pdfTableToHTMLDashboard_success plain_pdfParse slash_join
                  keep_basename (u "utils") (u "scores.pdf")
                  (u "utils/../dashboards/scores.pdf.html") scores_world
                  (snd (run_dashboard (u "scores.pdf") scores_world)))).
  vm_compute. reflexivity.
Defined.

Lemma pdfTableToHTMLDashboard_failure_witness :
  readFile (u "missing.pdf") scores_world = Throw (Error (u "ENOENT")) /\
  snd (run_dashboard (u "missing.pdf") scores_world) = scores_world.
Proof.
  assert (E : run_dashboard (u "missing.pdf") scores_world =
              (Throw (Error (u "ENOENT")), scores_world))
    by (vm_compute; reflexivity).
  destruct (pdfTableToHTMLDashboard_failure plain_pdfParse slash_join
              keep_basename (u "utils") (u "missing.pdf")
              (Error (u "ENOENT")) scores_world scores_world E)
    as [[Hr _]|[[b [Hr _]]|[[b [t [Hr _]]]|[b [t [tb [Hr _]]]]]]].
  - split; [exact Hr | now rewrite E].
  - vm_compute in Hr. discriminate.
  - vm_compute in Hr. discriminate.
  - vm_compute in Hr. discriminate.
Defined.

(** ** The candidate test, position by position *)

Section CandidateShape.

Lemma has_ws_run_pair (s : jsstring) :
  has_ws_run s = true <->
  exists a c1 c2 b,
    s = a ++ c1 :: c2 :: b /\ is_ws c1 = true /\ is_ws c2 = true.
Proof.
  split.
  - induction s as [|c r IH]; [discriminate|].
    rewrite has_ws_run_cons. intros H.
    apply orb_true_iff in H as [H|H].
    + apply andb_true_iff in H as [Hc Hr].
      destruct r as [|c2 r']; [discriminate|].
      exists [], c, c2, r'. auto.
    + destruct (IH H) as [a [c1 [c2 [b [-> Hw]]]]].
      exists (c :: a), c1, c2, b. auto.
  - intros [a [c1 [c2 [b [-> [H1 H2]]]]]].
    rewrite has_ws_run_app, (has_ws_run_cons c1 (c2 :: b)).
    simpl leading_ws at 1. rewrite H1, H2. simpl.
    now rewrite orb_true_r.
Qed.

Lemma trim_not_nil (s : jsstring) :
  trim s <> [] <-> exists c, In c s /\ is_ws c = false.
Proof.
  split.
  - intros Hne. pose proof (trim_leading s) as Hl.
    destruct (trim s) as [|c t] eqn:Et; [congruence|].
    exists c. split; [|exact Hl].
    apply trim_incl. rewrite Et. now left.
  - intros [c [Hin Hc]] Hnil.
    assert (Hf : In c (filter non_ws s)).
    { apply filter_In. split; [exact Hin|]. unfold non_ws. now rewrite Hc. }
    rewrite <- filter_non_ws_trim, Hnil in Hf. destruct Hf.
Qed.

(** X16. The filter of the lines, position by position: a line is kept
    as a candidate exactly when it holds a character that is not white
    space, and also a tab or two white-space characters next to each
    other. *)
Theorem is_candidate_iff (line : jsstring) :
  is_candidate line = true <->
  (exists c, In c line /\ is_ws c = false) /\
  (In TAB line \/
   exists a c1 c2 b,
     line = a ++ c1 :: c2 :: b /\ is_ws c1 = true /\ is_ws c2 = true).
Proof.
  rewrite is_candidate_spec, trim_not_nil, has_ws_run_pair.
  assert (Ht : has_tab line = true <-> In TAB line).
  { unfold has_tab. rewrite existsb_exists. split.
    - intros [x [Hx E]]. apply N.eqb_eq in E. now subst x.
    - intros Hin. exists TAB. split; [exact Hin | apply N.eqb_refl]. }
  rewrite Ht. reflexivity.
Qed.

End CandidateShape.
